(** * Ciciliya chat client: the streaming consumer and the session state

    A shallow embedding of [frontend/src/services/api.js] (the [chatAPI]
    object: [sendMessage], [streamMessage]) and of
    [frontend/src/components/ChatInterface.jsx] ([cleanMarkdownText],
    [handleSubmit], [handleRegularResponse], [handleStreamingResponse],
    [addErrorMessage]), with the properties of the specification stated
    over them. *)

From Stdlib Require Import List NArith ZArith Bool Lia.
From Stdlib Require Import Ascii String DecimalString.
Import ListNotations.

Set Implicit Arguments.

(** ** JavaScript strings

    A JavaScript string is a finite sequence of UTF-16 code units.  The
    operations below are the [String.prototype] methods the two source files
    call, on that representation. *)

Module JS.

Definition jsstring := list N.

(** The code units of an ASCII literal. *)
Definition lit (s : string) : jsstring :=
  map N_of_ascii (list_ascii_of_string s).

(** The code units of an ASCII literal in which every apostrophe stands for a
    double quote (code unit 34); used to write JSON text readably. *)
Definition dq (s : string) : jsstring :=
  map (fun c => if N.eqb c 39 then 34%N else c) (lit s).

Arguments lit s%_string.
Arguments dq s%_string.

Definition LF : N := 10.
Definition TAB : N := 9.
Definition QUOTE : N := 34.
Definition BACKSLASH : N := 92.

Fixpoint eqb (s t : jsstring) : bool :=
  match s, t with
  | [], [] => true
  | c :: s', d :: t' => N.eqb c d && eqb s' t'
  | _, _ => false
  end.

(** [s.startsWith(p)] *)
Fixpoint startsWith (p s : jsstring) : bool :=
  match p, s with
  | [], _ => true
  | c :: p', d :: s' => N.eqb c d && startsWith p' s'
  | _ :: _, [] => false
  end.

(** [s.endsWith(p)] *)
Definition endsWith (p s : jsstring) : bool :=
  startsWith (rev p) (rev s).

(** [s.slice(start, end)]; [None] for an omitted [end].  Negative indices
    count from the end, both are clamped to the string. *)
Definition slice (s : jsstring) (start : Z) (end_ : option Z) : jsstring :=
  let len := Z.of_nat (List.length s) in
  let clamp i := if (i <? 0)%Z then Z.max (len + i) 0 else Z.min i len in
  let from := clamp start in
  let to := match end_ with Some e => clamp e | None => len end in
  firstn (Z.to_nat (to - from)) (skipn (Z.to_nat from) s).

(** WhiteSpace and LineTerminator code units, as [String.prototype.trim]
    removes them. *)
Definition isWhiteSpace (c : N) : bool :=
  ((9 <=? c) && (c <=? 13) || (c =? 32) || (c =? 160) || (c =? 5760)
   || (8192 <=? c) && (c <=? 8202) || (c =? 8232) || (c =? 8233)
   || (c =? 8239) || (c =? 8287) || (c =? 12288) || (c =? 65279))%N.

Fixpoint trimStart (s : jsstring) : jsstring :=
  match s with
  | c :: t => if isWhiteSpace c then trimStart t else s
  | [] => []
  end.

Definition trimEnd (s : jsstring) : jsstring :=
  rev (trimStart (rev s)).

(** [s.trim()] *)
Definition trim (s : jsstring) : jsstring :=
  trimEnd (trimStart s).

(** [s.split(sep)] for a separator of one code unit: the pieces between the
    occurrences of [sep]; always at least one piece. *)
Fixpoint split (sep : N) (s : jsstring) : list jsstring :=
  match s with
  | [] => [[]]
  | c :: t =>
      if N.eqb c sep then [] :: split sep t
      else match split sep t with
           | l :: ls => (c :: l) :: ls
           | [] => [[c]]
           end
  end.

(** [s.replace(/ab/g, rep)] for a pattern of two literal code units [a] [b]:
    every match, found left to right without overlap, becomes [rep]. *)
Fixpoint replace (a b : N) (rep : jsstring) (s : jsstring) : jsstring :=
  match s with
  | [] => []
  | c :: t =>
      match t with
      | d :: t' =>
          if N.eqb c a && N.eqb d b then rep ++ replace a b rep t'
          else c :: replace a b rep t
      | [] => [c]
      end
  end.

(** The decimal digits of a non-negative integer, as a template literal
    prints it. *)
Definition decimal (n : N) : jsstring :=
  lit (NilZero.string_of_uint (N.to_uint n)).

End JS.

Import JS.

(** ** JavaScript values and [JSON.parse]

    The values [JSON.parse] can produce, and [undefined].  A number is kept
    as its JSON lexeme: which double it denotes is not needed to decide
    whether a text is accepted. *)

Module JSON.

#[warnings="-register-all"]
Inductive value : Type :=
| JUndefined
| JNull
| JBool (b : bool)
| JNumber (lexeme : jsstring)
| JString (s : jsstring)
| JArray (items : list value)
| JObject (props : list (jsstring * value)).

(** JSON white space: tab, line feed, carriage return, space. *)
Definition isJSONSpace (c : N) : bool :=
  ((c =? 9) || (c =? 10) || (c =? 13) || (c =? 32))%N.

Fixpoint skip_ws (s : jsstring) : jsstring :=
  match s with
  | c :: t => if isJSONSpace c then skip_ws t else s
  | [] => []
  end.

Definition isDigit (c : N) : bool := ((48 <=? c) && (c <=? 57))%N.

Definition hexval (c : N) : option N :=
  if isDigit c then Some (c - 48)%N
  else if ((97 <=? c) && (c <=? 102))%N then Some (c - 87)%N
  else if ((65 <=? c) && (c <=? 70))%N then Some (c - 55)%N
  else None.

Definition hex4 (a b c d : N) : option N :=
  match hexval a, hexval b, hexval c, hexval d with
  | Some x, Some y, Some z, Some w => Some (((x * 16 + y) * 16 + z) * 16 + w)%N
  | _, _, _, _ => None
  end.

(** The code unit a one-letter escape stands for. *)
Definition simple_escape (e : N) : option N :=
  if (e =? 34)%N then Some 34%N            (* quote *)
  else if (e =? 92)%N then Some 92%N       (* backslash *)
  else if (e =? 47)%N then Some 47%N       (* solidus *)
  else if (e =? 98)%N then Some 8%N        (* backspace *)
  else if (e =? 102)%N then Some 12%N      (* form feed *)
  else if (e =? 110)%N then Some 10%N      (* line feed *)
  else if (e =? 114)%N then Some 13%N      (* carriage return *)
  else if (e =? 116)%N then Some 9%N       (* tab *)
  else None.

Definition cons_fst (c : N) (r : option (jsstring * jsstring)) :
  option (jsstring * jsstring) :=
  match r with
  | Some (str, rest) => Some (c :: str, rest)
  | None => None
  end.

(** The characters of a string after its opening quote, up to the closing
    one: the decoded string and the text that follows. *)
Fixpoint parse_chars (s : jsstring) : option (jsstring * jsstring) :=
  match s with
  | [] => None
  | c :: t =>
      if (c =? 34)%N then Some ([], t)
      else if (c =? 92)%N then
        match t with
        | [] => None
        | e :: t1 =>
            if (e =? 117)%N then
              match t1 with
              | h1 :: h2 :: h3 :: h4 :: t2 =>
                  match hex4 h1 h2 h3 h4 with
                  | Some u => cons_fst u (parse_chars t2)
                  | None => None
                  end
              | _ => None
              end
            else
              match simple_escape e with
              | Some u => cons_fst u (parse_chars t1)
              | None => None
              end
        end
      else if (c <? 32)%N then None
      else cons_fst c (parse_chars t)
  end.

(** The longest prefix of digits, and the rest. *)
Fixpoint digits (s : jsstring) : jsstring * jsstring :=
  match s with
  | c :: t => if isDigit c then let (ds, r) := digits t in (c :: ds, r) else ([], s)
  | [] => ([], [])
  end.

(** [int]: a single 0, or a non-zero digit followed by digits. *)
Definition parse_int (s : jsstring) : option (jsstring * jsstring) :=
  match s with
  | c :: t =>
      if (c =? 48)%N then Some ([c], t)
      else if isDigit c then let (ds, r) := digits t in Some (c :: ds, r)
      else None
  | [] => None
  end.

(** [frac]: absent, or a point followed by at least one digit. *)
Definition parse_frac (s : jsstring) : option (jsstring * jsstring) :=
  match s with
  | c :: t =>
      if (c =? 46)%N then
        match digits t with
        | ([], _) => None
        | (ds, r) => Some (c :: ds, r)
        end
      else Some ([], s)
  | [] => Some ([], [])
  end.

(** [exp]: absent, or e/E, an optional sign and at least one digit. *)
Definition parse_exp (s : jsstring) : option (jsstring * jsstring) :=
  match s with
  | c :: t =>
      if ((c =? 101) || (c =? 69))%N then
        let (sign, t1) :=
          match t with
          | g :: t' => if ((g =? 43) || (g =? 45))%N then ([g], t') else ([], t)
          | [] => ([], t)
          end in
        match digits t1 with
        | ([], _) => None
        | (ds, r) => Some (c :: sign ++ ds, r)
        end
      else Some ([], s)
  | [] => Some ([], [])
  end.

Definition parse_number (s : jsstring) : option (jsstring * jsstring) :=
  let (sign, s1) :=
    match s with
    | c :: t => if (c =? 45)%N then ([c], t) else ([], s)
    | [] => ([], s)
    end in
  match parse_int s1 with
  | None => None
  | Some (i, s2) =>
      match parse_frac s2 with
      | None => None
      | Some (f, s3) =>
          match parse_exp s3 with
          | None => None
          | Some (e, s4) => Some (sign ++ i ++ f ++ e, s4)
          end
      end
  end.

Definition expect (word : jsstring) (v : value) (s : jsstring) :
  option (value * jsstring) :=
  if startsWith word s then Some (v, skipn (List.length word) s) else None.

(** Recursive descent over the JSON grammar; [fuel] bounds the number of
    nested and successive values. *)
Fixpoint parse_value (fuel : nat) (s : jsstring) : option (value * jsstring) :=
  match fuel with
  | O => None
  | S fuel =>
      match skip_ws s with
      | [] => None
      | c :: t =>
          if (c =? 34)%N then
            match parse_chars t with
            | Some (str, r) => Some (JString str, r)
            | None => None
            end
          else if (c =? 123)%N then
            match skip_ws t with
            | d :: t' =>
                if (d =? 125)%N then Some (JObject [], t')
                else match parse_members fuel (d :: t') with
                     | Some (ps, r) => Some (JObject ps, r)
                     | None => None
                     end
            | [] => None
            end
          else if (c =? 91)%N then
            match skip_ws t with
            | d :: t' =>
                if (d =? 93)%N then Some (JArray [], t')
                else match parse_elements fuel (d :: t') with
                     | Some (vs, r) => Some (JArray vs, r)
                     | None => None
                     end
            | [] => None
            end
          else if (c =? 116)%N then expect (lit "true") (JBool true) (c :: t)
          else if (c =? 102)%N then expect (lit "false") (JBool false) (c :: t)
          else if (c =? 110)%N then expect (lit "null") JNull (c :: t)
          else match parse_number (c :: t) with
               | Some (lexeme, r) => Some (JNumber lexeme, r)
               | None => None
               end
      end
  end

with parse_elements (fuel : nat) (s : jsstring) :
  option (list value * jsstring) :=
  match fuel with
  | O => None
  | S fuel =>
      match parse_value fuel s with
      | None => None
      | Some (v, r) =>
          match skip_ws r with
          | c :: t =>
              if (c =? 44)%N then
                match parse_elements fuel t with
                | Some (vs, r') => Some (v :: vs, r')
                | None => None
                end
              else if (c =? 93)%N then Some ([v], t)
              else None
          | [] => None
          end
      end
  end

with parse_members (fuel : nat) (s : jsstring) :
  option (list (jsstring * value) * jsstring) :=
  match fuel with
  | O => None
  | S fuel =>
      match skip_ws s with
      | q :: t =>
          if (q =? 34)%N then
            match parse_chars t with
            | None => None
            | Some (key, r) =>
                match skip_ws r with
                | c :: t1 =>
                    if (c =? 58)%N then
                      match parse_value fuel t1 with
                      | None => None
                      | Some (v, r1) =>
                          match skip_ws r1 with
                          | e :: t2 =>
                              if (e =? 44)%N then
                                match parse_members fuel t2 with
                                | Some (ps, r2) => Some ((key, v) :: ps, r2)
                                | None => None
                                end
                              else if (e =? 125)%N then Some ([(key, v)], t2)
                              else None
                          | [] => None
                          end
                      end
                    else None
                | [] => None
                end
            end
          else None
      | [] => None
      end
  end.

(** [JSON.parse(text)]: the value, or [None] when it throws a SyntaxError.
    Each value and each list element of the text uses at least one code unit
    and at most two units of fuel, so this fuel is never the reason for
    [None] ([parse_fuel_independent] below). *)
Definition parse (text : jsstring) : option value :=
  match parse_value (2 * List.length text + 2) text with
  | Some (v, r) => match skip_ws r with [] => Some v | _ :: _ => None end
  | None => None
  end.

(** The own property [key] of an object built by [JSON.parse]: of two
    members with the same name the later one stands. *)
Fixpoint lookup (key : jsstring) (props : list (jsstring * value)) : value :=
  match props with
  | [] => JUndefined
  | (k, v) :: ps =>
      match lookup key ps with
      | JUndefined => if JS.eqb k key then v else JUndefined
      | later => later
      end
  end.

(** [v.key] for the member names this program reads ([type], [content],
    [sources], [error], [answer]), none of which names a property of the
    built-in prototypes: [None] is the TypeError of reading a property of
    [null] or [undefined]. *)
Definition get (v : value) (key : jsstring) : option value :=
  match v with
  | JUndefined | JNull => None
  | JObject props => Some (lookup key props)
  | _ => Some JUndefined
  end.

End JSON.

Import JSON.

(** ** The transport client ([services/api.js], [chatAPI])

    What [fetch] and the response do is the environment's choice and is given
    as data; the text chunks are the strings [decoder.decode(value)] returns. *)

Module api.

(** The body of a POST request, and where it goes. *)
Record Request : Type := {
  url : jsstring;
  query : jsstring;
  max_sources : Z;
  stream : bool
}.

Definition API_BASE_URL : jsstring := lit "http://localhost:8000".

(** What is thrown to a caller: an [Error] object made by [new Error(message)]
    or by the platform, or the SyntaxError or TypeError of a failed
    [response.json()] or property read. *)
Inductive exn : Type :=
| Error (message : jsstring)
| SyntaxError
| TypeError.

(** How the promise of an [async] function settles. *)
Inductive Settled (A : Type) : Type :=
| Fulfilled (result : A)
| Rejected (error : exn).

Arguments Rejected {A} error.

(** The [/api/query] exchange: [fetch] rejects, or yields a response with
    its [ok] flag, status and body text. *)
Inductive QueryTransport : Type :=
| QueryFetchRejects (message : jsstring)
| QueryResponse (ok : bool) (status : N) (body : jsstring).

Definition http_error (status : N) : jsstring :=
  lit "HTTP error! status: " ++ decimal status.

(** [chatAPI.sendMessage]: the [catch] logs and rethrows. *)
Definition sendMessage (t : QueryTransport) : Settled value :=
  match t with
  | QueryFetchRejects message => Rejected (Error message)
  | QueryResponse ok status body =>
      if negb ok then Rejected (Error (http_error status))
      else match JSON.parse body with
           | Some data => Fulfilled data
           | None => Rejected SyntaxError
           end
  end.

Definition sendMessage_request (query : jsstring) (maxSources : Z) : Request :=
  {| url := API_BASE_URL ++ lit "/api/query"; query := query;
     max_sources := maxSources; stream := false |}.

Definition streamMessage_request (query : jsstring) (maxSources : Z) : Request :=
  {| url := API_BASE_URL ++ lit "/api/stream"; query := query;
     max_sources := maxSources; stream := true |}.

(** How the sequence of [reader.read()] results ends: [done], or a rejection. *)
Inductive ReadEnd : Type :=
| EndOfStream
| ReadRejects (message : jsstring).

(** The [/api/stream] exchange: [fetch] rejects, or yields a response with
    its [ok] flag and status, whose reader delivers [chunks] and then ends. *)
Inductive StreamTransport : Type :=
| StreamFetchRejects (message : jsstring)
| StreamResponse (ok : bool) (status : N) (chunks : list jsstring) (ending : ReadEnd).

Section streamMessage.

(** The four callbacks act on a state of the caller's. *)
Variable S : Type.

Record Callbacks : Type := {
  onToken : value -> S -> S;
  onSources : value -> S -> S;
  onError : value -> S -> S;
  onDone : S -> S
}.

Variable cb : Callbacks.

(** The [switch (data.type)]: [None] is the TypeError of reading [type] of
    [null].  The cases compare with [===], so only a string matches. *)
Definition dispatch (data : value) (st : S) : option S :=
  match JSON.get data (lit "type") with
  | None => None
  | Some (JString ty) =>
      if JS.eqb ty (lit "token") then
        match JSON.get data (lit "content") with
        | Some content => Some (onToken cb content st)
        | None => None
        end
      else if JS.eqb ty (lit "sources") then
        match JSON.get data (lit "sources") with
        | Some sources => Some (onSources cb sources st)
        | None => None
        end
      else if JS.eqb ty (lit "error") then
        match JSON.get data (lit "error") with
        | Some error => Some (onError cb error st)
        | None => None
        end
      else if JS.eqb ty (lit "done") then Some (onDone cb st)
      else Some st
  | Some _ => Some st
  end.

(** The body of the [for] loop: the inner [try] with its [catch], which
    only logs. *)
Definition handle_line (st : S) (line : jsstring) : S :=
  if startsWith (lit "data: ") line then
    match JSON.parse (slice line 6 None) with
    | Some data =>
        match dispatch data st with
        | Some st' => st'
        | None => st
        end
    | None => st
    end
  else st.

(** One turn of the [while] loop with [done] false. *)
Definition handle_chunk (st : S) (chunk : jsstring) : S :=
  let lines := split LF chunk in
  fold_left handle_line lines st.

Definition read_loop (chunks : list jsstring) (st : S) : S :=
  fold_left handle_chunk chunks st.

(** The outer [try] block: the message of what it throws, if anything, and
    the state the callbacks have produced by then. *)
Definition streamMessage_try (t : StreamTransport) (st : S) : option jsstring * S :=
  match t with
  | StreamFetchRejects message => (Some message, st)
  | StreamResponse ok status chunks ending =>
      if negb ok then (Some (http_error status), st)
      else
        let st' := read_loop chunks st in
        match ending with
        | EndOfStream => (None, st')
        | ReadRejects message => (Some message, st')
        end
  end.

(** [chatAPI.streamMessage]: the outer [catch] logs and calls
    [onError(error.message)]. *)
Definition streamMessage (t : StreamTransport) (st : S) : S * Settled unit :=
  match streamMessage_try t st with
  | (Some message, st') => (onError cb (JString message) st', Fulfilled tt)
  | (None, st') => (st', Fulfilled tt)
  end.

End streamMessage.

(** The callback invocations, in order. *)
Inductive ProtocolEvent : Type :=
| Token (content : value)
| Sources (sources : value)
| Failure (error : value)
| Done.

(** Callbacks that record their invocation. *)
Definition recorder : Callbacks (list ProtocolEvent) :=
  {| onToken := fun content log => log ++ [Token content];
     onSources := fun sources log => log ++ [Sources sources];
     onError := fun error log => log ++ [Failure error];
     onDone := fun log => log ++ [Done] |}.

(** The events the frame decoder dispatches for a sequence of chunks. *)
Definition decode (chunks : list jsstring) : list ProtocolEvent :=
  read_loop recorder chunks [].

(** The callback invocations of a whole call of [streamMessage], the one of
    its outer [catch] included. *)
Definition calls (t : StreamTransport) : list ProtocolEvent :=
  fst (streamMessage recorder t []).

(** The events that close the open message. *)
Definition terminal (e : ProtocolEvent) : bool :=
  match e with
  | Failure _ | Done => true
  | Token _ | Sources _ => false
  end.

(** The invocation of a callback that an event records. *)
Definition invoke (S : Type) (cb : Callbacks S) (st : S) (e : ProtocolEvent) : S :=
  match e with
  | Token content => onToken cb content st
  | Sources sources => onSources cb sources st
  | Failure error => onError cb error st
  | Done => onDone cb st
  end.

End api.

Import api.

(** ** The text normalizer ([ChatInterface.jsx], [cleanMarkdownText]) *)

Module Normalizer.

(** The nine specific un-escapes of the source, in its order. *)
Definition unescape_specific (cleaned : jsstring) : jsstring :=
  replace BACKSLASH 41 (lit ")")
    (replace BACKSLASH 40 (lit "(")
      (replace BACKSLASH 93 (lit "]")
        (replace BACKSLASH 91 (lit "[")
          (replace BACKSLASH 35 (lit "#")
            (replace BACKSLASH 42 (lit "*")
              (replace BACKSLASH 34 [QUOTE]
                (replace BACKSLASH 116 [TAB]
                  (replace BACKSLASH 110 [LF] cleaned)))))))).

(** The last replacement of the chain: [/\\\\/g] to one backslash. *)
Definition collapse_backslashes (cleaned : jsstring) : jsstring :=
  replace BACKSLASH BACKSLASH [BACKSLASH] cleaned.

(** "Remove wrapping quotes if present". *)
Definition strip_quotes (cleaned : jsstring) : jsstring :=
  if startsWith [QUOTE] cleaned && endsWith [QUOTE] cleaned
  then slice cleaned 1 (Some (-1)%Z)
  else cleaned.

(** [cleanMarkdownText(text)] for [text] a string, or absent ([None]:
    [null] or [undefined]).  [!text] holds for an absent and for an empty
    string. *)
Definition cleanMarkdownText (text : option jsstring) : jsstring :=
  match text with
  | None => []
  | Some [] => []
  | Some text =>
      let cleaned := trim text in
      let cleaned := strip_quotes cleaned in
      collapse_backslashes (unescape_specific cleaned)
  end.

End Normalizer.

Import Normalizer.

(** ** The chat component ([components/ChatInterface.jsx]) *)

Module ChatInterface.

Inductive Sender : Type := user | bot.

(** An entry of [messages].  A field the object literal does not have is
    [None]. *)
Record Message : Type := {
  id : Z;
  text : value;
  sender : Sender;
  sources : option value;
  isStreaming : option bool
}.

(** The component's state: the four [useState] cells, and two records kept
    for the statements only: the ledger after each update handed to
    [setMessages], oldest first, and the requests handed to [fetch].

    [messages] is the ledger with every update issued so far applied.  React
    queues the updaters and runs them when it renders; whenever that is, the
    ledger it then shows is the value [messages] has here at that point
    ([render_batches] below is that for the stream's callbacks, whose token
    updater reads a variable when it runs). *)
Record State : Type := {
  message : jsstring;
  messages : list Message;
  isLoading : bool;
  useStreaming : bool;
  history : list (list Message);
  requests : list Request
}.

(** The first render. *)
Definition initial : State :=
  {| message := []; messages := []; isLoading := false; useStreaming := true;
     history := [[]]; requests := [] |}.

Definition setMessage (m : jsstring) (st : State) : State :=
  {| message := m; messages := messages st; isLoading := isLoading st;
     useStreaming := useStreaming st; history := history st;
     requests := requests st |}.

(** [setMessages((prev) => f(prev))] *)
Definition setMessages (f : list Message -> list Message) (st : State) : State :=
  {| message := message st; messages := f (messages st);
     isLoading := isLoading st; useStreaming := useStreaming st;
     history := history st ++ [f (messages st)]; requests := requests st |}.

Definition setIsLoading (b : bool) (st : State) : State :=
  {| message := message st; messages := messages st; isLoading := b;
     useStreaming := useStreaming st; history := history st;
     requests := requests st |}.

(** The [fetch] call a [chatAPI] method starts with. *)
Definition fetch (r : Request) (st : State) : State :=
  {| message := message st; messages := messages st; isLoading := isLoading st;
     useStreaming := useStreaming st; history := history st;
     requests := requests st ++ [r] |}.

(** What one submission gets from outside: what [Date.now()] returns where
    the user message, the bot message and the error message are built, and
    what each endpoint would answer. *)
Record Env : Type := {
  now_user : Z;
  now_bot : Z;
  now_error : Z;
  query_transport : QueryTransport;
  stream_transport : StreamTransport
}.

Definition submit_failure_text : jsstring :=
  lit "Sorry, I couldn't process your request. Please try again.".

Definition stream_failure_text : jsstring :=
  lit "Sorry, an error occurred.".

(** [{ ...msg, text: t }] and the like. *)
Definition with_text (t : value) (msg : Message) : Message :=
  {| id := id msg; text := t; sender := sender msg; sources := sources msg;
     isStreaming := isStreaming msg |}.

Definition with_sources (s : value) (msg : Message) : Message :=
  {| id := id msg; text := text msg; sender := sender msg; sources := Some s;
     isStreaming := isStreaming msg |}.

Definition with_isStreaming (b : bool) (msg : Message) : Message :=
  {| id := id msg; text := text msg; sender := sender msg;
     sources := sources msg; isStreaming := Some b |}.

(** [prev.map((msg) => msg.id === botMessageId ? f(msg) : msg)] *)
Definition patch (botMessageId : Z) (f : Message -> Message)
  (prev : list Message) : list Message :=
  map (fun msg => if Z.eqb (id msg) botMessageId then f msg else msg) prev.

(** [addErrorMessage(errorText)], reading the clock at [t]. *)
Definition addErrorMessage (t : Z) (errorText : jsstring) (st : State) : State :=
  let errorMessage :=
    {| id := t + 1; text := JString errorText; sender := bot;
       sources := None; isStreaming := None |} in
  setMessages (fun prev => prev ++ [errorMessage]) st.

(** [handleRegularResponse(query)]; its [catch] rethrows. *)
Definition handleRegularResponse (env : Env) (query : jsstring) (st : State) :
  State * Settled unit :=
  let st := fetch (sendMessage_request query 3) st in
  match sendMessage (query_transport env) with
  | Rejected error => (st, Rejected error)
  | Fulfilled response =>
      match JSON.get response (lit "answer"), JSON.get response (lit "sources") with
      | Some answer, Some srcs =>
          let botMessage :=
            {| id := now_bot env + 1; text := answer; sender := bot;
               sources := Some srcs; isStreaming := None |} in
          (setMessages (fun prev => prev ++ [botMessage]) st, Fulfilled tt)
      | _, _ => (st, Rejected TypeError)
      end
  end.

Section Streaming.

(** [Number::toString] of the double a JSON number lexeme denotes. *)
Variable Number_toString : jsstring -> jsstring.

(** [arr.join(sep)] of strings. *)
Fixpoint join (sep : jsstring) (parts : list jsstring) : jsstring :=
  match parts with
  | [] => []
  | [p] => p
  | p :: ps => p ++ sep ++ join sep ps
  end.

(** Members a parsed object holds under a key. *)
Definition has_own (k : jsstring) (props : list (jsstring * value)) : bool :=
  existsb (fun p => JS.eqb (fst p) k) props.

(** The strings of a list, when each is one. *)
Fixpoint all_some (l : list (option jsstring)) : option (list jsstring) :=
  match l with
  | [] => Some []
  | Some s :: rest =>
      match all_some rest with
      | Some ss => Some (s :: ss)
      | None => None
      end
  | None :: _ => None
  end.

(** The string a parsed value becomes when [+=] appends it to a string;
    [None] is the TypeError of the conversion.  An object is converted by
    its [valueOf] and [toString] members: the inherited [valueOf] returns
    the object and the inherited [toString] gives [[object Object]], but a
    member the object holds under [toString] comes from JSON and cannot be
    called, and then there is nothing left to convert with.  An array is
    joined with commas, its elements converted the same way, [null] to the
    empty string. *)
Fixpoint ToString (v : value) : option jsstring :=
  match v with
  | JUndefined => Some (lit "undefined")
  | JNull => Some (lit "null")
  | JBool true => Some (lit "true")
  | JBool false => Some (lit "false")
  | JNumber lexeme => Some (Number_toString lexeme)
  | JString s => Some s
  | JArray items =>
      option_map (join (lit ","))
        (all_some (map (fun x => match x with
                                 | JUndefined | JNull => Some []
                                 | _ => ToString x
                                 end) items))
  | JObject props =>
      if has_own (lit "toString") props then None
      else Some (lit "[object Object]")
  end.

(** The updaters the callbacks hand to [setMessages].  The one of [onToken]
    holds no text of its own: it reads the variable [streamedText] when it
    runs. *)
Inductive Updater : Type :=
| ShowStreamedText
| SetSources (srcs : value)
| ShowFailure
| Close.

(** [prev.map((msg) => msg.id === botMessageId ? { ...msg, ... } : msg)],
    run while the variable holds [streamedText]. *)
Definition run_updater (botMessageId : Z) (streamedText : jsstring)
  (u : Updater) : list Message -> list Message :=
  patch botMessageId
    (match u with
     | ShowStreamedText => with_text (JString streamedText)
     | SetSources srcs => with_sources srcs
     | ShowFailure =>
         fun msg => with_isStreaming false
                      (with_text (JString stream_failure_text) msg)
     | Close => with_isStreaming false
     end).

(** The four arrow functions passed to [chatAPI.streamMessage].  They share
    the local variable [streamedText], which is the second component of the
    state they act on.  Each updater is applied to [messages] as it is
    issued, with the variable as it is then.

    In [onToken] the conversion of [streamedText += token] can throw; that
    is before the variable is assigned and before [setMessages], and
    [streamMessage] calls [onToken] inside the [try] whose [catch] only
    logs, so nothing changes. *)
Definition callbacks (botMessageId : Z) : Callbacks (State * jsstring) :=
  {| onToken := fun token '(st, streamedText) =>
       match ToString token with
       | Some appended =>
           let streamedText := streamedText ++ appended in
           (setMessages (run_updater botMessageId streamedText ShowStreamedText) st,
            streamedText)
       | None => (st, streamedText)
       end;
     onSources := fun srcs '(st, streamedText) =>
       (setMessages (run_updater botMessageId streamedText (SetSources srcs)) st,
        streamedText);
     onError := fun error '(st, streamedText) =>
       (setMessages (run_updater botMessageId streamedText ShowFailure) st,
        streamedText);
     onDone := fun '(st, streamedText) =>
       (setMessages (run_updater botMessageId streamedText Close) st,
        streamedText) |}.

(** [handleStreamingResponse(query)] *)
Definition handleStreamingResponse (env : Env) (query : jsstring) (st : State) :
  State * Settled unit :=
  let botMessageId := (now_bot env + 1)%Z in
  let streamedText : jsstring := [] in
  let botMessage :=
    {| id := botMessageId; text := JString []; sender := bot;
       sources := Some (JArray []); isStreaming := Some true |} in
  let st := setMessages (fun prev => prev ++ [botMessage]) st in
  let st := fetch (streamMessage_request query 3) st in
  let '((st, _), settled) :=
    streamMessage (callbacks botMessageId) (stream_transport env) (st, streamedText) in
  (st, settled).

(** [handleSubmit(e)] *)
Definition handleSubmit (env : Env) (st : State) : State :=
  match trim (message st) with
  | _ :: _ =>
      if negb (isLoading st) then
        let userMessage :=
          {| id := now_user env; text := JString (message st); sender := user;
             sources := None; isStreaming := None |} in
        let currentMessage := message st in
        let st := setMessages (fun prev => prev ++ [userMessage]) st in
        let st := setMessage [] st in
        let st := setIsLoading true st in
        let (st, settled) :=
          if useStreaming st then handleStreamingResponse env currentMessage st
          else handleRegularResponse env currentMessage st in
        let st :=
          match settled with
          | Fulfilled _ => st
          | Rejected error =>
              addErrorMessage (now_error env) submit_failure_text st
          end in
        setIsLoading false st
      else st
  | [] => st
  end.

(** What the user does: type into the input ([onChange]) or submit the form
    ([onSubmit]), each submission with what the outside then answers. *)
Inductive Action : Type :=
| Typing (input : jsstring)
| Submit (env : Env).

Definition step (st : State) (a : Action) : State :=
  match a with
  | Typing v => setMessage v st
  | Submit env => handleSubmit env st
  end.

Definition run (actions : list Action) (st : State) : State :=
  fold_left step actions st.

(** The events whose callback gets as far as [setMessages]: all but a token
    that cannot be converted. *)
Definition converts (e : ProtocolEvent) : bool :=
  match e with
  | Token token =>
      match ToString token with Some _ => true | None => false end
  | _ => true
  end.

(** [streamedText] after the callback of an event. *)
Definition event_text (streamedText : jsstring) (e : ProtocolEvent) : jsstring :=
  match e with
  | Token token =>
      match ToString token with
      | Some appended => streamedText ++ appended
      | None => streamedText
      end
  | _ => streamedText
  end.

(** The updater the callback of an event hands to [setMessages]. *)
Definition event_updater (e : ProtocolEvent) : Updater :=
  match e with
  | Token _ => ShowStreamedText
  | Sources srcs => SetSources srcs
  | Failure _ => ShowFailure
  | Done => Close
  end.

(** What an event that converts does to the messages whose id is the bot
    message's. *)
Definition event_patch (streamedText : jsstring) (e : ProtocolEvent) :
  Message -> Message :=
  match e with
  | Token _ => with_text (JString (event_text streamedText e))
  | Sources srcs => with_sources srcs
  | Failure _ =>
      fun msg => with_isStreaming false
                   (with_text (JString stream_failure_text) msg)
  | Done => with_isStreaming false
  end.

(** The text the token events of a sequence add to [streamedText]. *)
Definition token_text (evs : list ProtocolEvent) : jsstring :=
  List.concat (map (event_text []) evs).

(** *** When React runs the updaters

    [setMessages] only queues its updater; React runs the queue when it
    renders, between two turns of the event loop, and the token updater
    reads [streamedText] then.  What React holds while a stream runs: the
    ledger it rendered last, the variable, and the updaters queued since. *)
Record Pending : Type := {
  rendered : list Message;
  streamed : jsstring;
  queued : list Updater
}.

(** A callback is invoked: the variable is assigned at once, the updater is
    queued. *)
Definition call (e : ProtocolEvent) (p : Pending) : Pending :=
  if converts e then
    {| rendered := rendered p; streamed := event_text (streamed p) e;
       queued := queued p ++ [event_updater e] |}
  else p.

(** React renders: the queued updaters run in order, each reading the
    variable as it is now. *)
Definition render (botMessageId : Z) (p : Pending) : Pending :=
  {| rendered :=
       fold_left (fun prev u => run_updater botMessageId (streamed p) u prev)
         (queued p) (rendered p);
     streamed := streamed p; queued := [] |}.

(** The callbacks invoked batch by batch, React rendering after each batch
    and not within one. *)
Definition render_batches (botMessageId : Z)
  (schedule : list (list ProtocolEvent)) (p : Pending) : Pending :=
  fold_left (fun p batch => render botMessageId (fold_left (fun p e => call e p) batch p))
    schedule p.

(** The events whose callback writes the [text] of the bot message. *)
Definition sets_text (e : ProtocolEvent) : bool :=
  match e with
  | Token _ | Failure _ => true
  | Sources _ | Done => false
  end.

End Streaming.

(** Messages that are still open. *)
Definition streaming (msg : Message) : bool :=
  match isStreaming msg with Some true => true | _ => false end.

Definition open_count (ledger : list Message) : nat :=
  List.length (filter streaming ledger).

(** A submission whose stream, if it is streamed, invokes [onError] or
    [onDone] at least once; typing is not concerned. *)
Definition closing (a : Action) : bool :=
  match a with
  | Typing _ => true
  | Submit env => existsb terminal (calls (stream_transport env))
  end.

(** *** Vocabulary of the statements *)

(** Identity and author of a message. *)
Definition key (m : Message) : Z * Sender := (id m, sender m).

(** Every open message carries the id [b]. *)
Definition open_only (b : Z) (l : list Message) : Prop :=
  forall m, In m l -> streaming m = true -> id m = b.

(** What holds of the state while a stream for the bot message [b] runs. *)
Definition stream_inv (b : Z) (st : State) : Prop :=
  open_count (messages st) <= 1
  /\ open_only b (messages st)
  /\ Forall (fun ledger => open_count ledger <= 1) (history st).

(** The cells the callbacks do not write. *)
Definition same_cells (st st' : State) : Prop :=
  message st' = message st /\ isLoading st' = isLoading st
  /\ useStreaming st' = useStreaming st /\ requests st' = requests st.

Definition userMessage (env : Env) (st : State) : Message :=
  {| id := now_user env; text := JString (message st); sender := user;
     sources := None; isStreaming := None |}.

Definition placeholder (env : Env) : Message :=
  {| id := now_bot env + 1; text := JString []; sender := bot;
     sources := Some (JArray []); isStreaming := Some true |}.

(** The state of an accepted submission when its request goes out. *)
Definition submitted (env : Env) (st : State) : State :=
  setIsLoading true
    (setMessage [] (setMessages (fun prev => prev ++ [userMessage env st]) st)).

Definition stream_begun (env : Env) (st : State) : State :=
  fetch (streamMessage_request (message st) 3)
    (setMessages (fun prev => prev ++ [placeholder env]) (submitted env st)).

(** The bot message a non-streaming submission ends with: the reply built
    from the response, or the error message of [handleSubmit]'s [catch]. *)
Definition regular_reply (env : Env) : Message :=
  match sendMessage (query_transport env) with
  | Fulfilled (JObject props) =>
      {| id := now_bot env + 1; text := JSON.lookup (lit "answer") props;
         sender := bot; sources := Some (JSON.lookup (lit "sources") props);
         isStreaming := None |}
  | Fulfilled JNull | Fulfilled JUndefined | Rejected _ =>
      {| id := now_error env + 1; text := JString submit_failure_text;
         sender := bot; sources := None; isStreaming := None |}
  | Fulfilled _ =>
      {| id := now_bot env + 1; text := JUndefined; sender := bot;
         sources := Some JUndefined; isStreaming := None |}
  end.

Definition good_history (st : State) : Prop :=
  Forall (fun ledger => open_count ledger <= 1) (history st).

(** No message is open and none ever was more than one. *)
Definition at_rest (st : State) : Prop :=
  open_count (messages st) = 0 /\ good_history st.

End ChatInterface.

Import ChatInterface.

(** ** The request body ([services/api.js], the [body] of both [fetch] calls) *)

Module Stringify.

(** The digit of a value below 16. *)
Definition hexdigit (d : N) : N :=
  if (d <? 10)%N then (48 + d)%N else (87 + d)%N.

(** [UnicodeEscape]: backslash, u and four lower-case hexadecimal digits. *)
Definition UnicodeEscape (c : N) : jsstring :=
  [BACKSLASH; 117%N; hexdigit (c / 4096); hexdigit ((c / 256) mod 16);
   hexdigit ((c / 16) mod 16); hexdigit (c mod 16)].

Definition isLeadingSurrogate (c : N) : bool :=
  ((55296 <=? c) && (c <=? 56319))%N.
Definition isTrailingSurrogate (c : N) : bool :=
  ((56320 <=? c) && (c <=? 57343))%N.

(** The text for a code unit that is not a surrogate: the two-character
    escapes of the table, a [UnicodeEscape] below 32, itself otherwise. *)
Definition quote_unit (c : N) : jsstring :=
  if (c =? 8)%N then lit "\b"
  else if (c =? 9)%N then lit "\t"
  else if (c =? 10)%N then lit "\n"
  else if (c =? 12)%N then lit "\f"
  else if (c =? 13)%N then lit "\r"
  else if (c =? 34)%N then [BACKSLASH; QUOTE]
  else if (c =? 92)%N then [BACKSLASH; BACKSLASH]
  else if (c <? 32)%N then UnicodeEscape c
  else [c].

(** A leading surrogate followed by a trailing one is a code point and is
    written as it is; a surrogate on its own is escaped. *)
Fixpoint quote_units (s : jsstring) : jsstring :=
  match s with
  | [] => []
  | c :: t =>
      if isLeadingSurrogate c then
        match t with
        | d :: t' =>
            if isTrailingSurrogate d then c :: d :: quote_units t'
            else UnicodeEscape c ++ quote_units t
        | [] => UnicodeEscape c
        end
      else if isTrailingSurrogate c then UnicodeEscape c ++ quote_units t
      else quote_unit c ++ quote_units t
  end.

(** [QuoteJSONString]: what [JSON.stringify] writes for a string. *)
Definition QuoteJSONString (s : jsstring) : jsstring :=
  QUOTE :: quote_units s ++ [QUOTE].

(** [JSON.stringify({ query: query, max_sources: maxSources, stream: ... })]:
    the members in the order of the literal, no white space; the number as
    a double prints an integer it holds exactly. *)
Definition body (r : Request) : jsstring :=
  lit "{" ++ QuoteJSONString (lit "query") ++ lit ":" ++ QuoteJSONString (query r)
  ++ lit "," ++ QuoteJSONString (lit "max_sources") ++ lit ":"
  ++ (if (max_sources r <? 0)%Z then lit "-" else [])
  ++ decimal (Z.abs_N (max_sources r))
  ++ lit "," ++ QuoteJSONString (lit "stream") ++ lit ":"
  ++ (if stream r then lit "true" else lit "false") ++ lit "}".

End Stringify.
Import Stringify.

(** The body after the query, for [max_sources] 3. *)
Definition body_tail (b : bool) : jsstring :=
  dq ",'max_sources':3,'stream':" ++ (if b then lit "true" else lit "false")
  ++ lit "}".

(** ** Vocabulary of the session statements *)

Definition is_string (m : Message) : bool :=
  match text m with
  | JString _ => true
  | _ => false
  end.

(** Each ledger of a history extends the one before it, ids and senders
    unchanged. *)
Fixpoint append_only (h : list (list Message)) : Prop :=
  match h with
  | l1 :: rest =>
      match rest with
      | l2 :: _ =>
          (exists suffix, map key l2 = map key l1 ++ suffix)
          /\ append_only rest
      | [] => True
      end
  | [] => True
  end.

(** A request as [streamMessage] issues it for the component. *)
Definition stream_request (r : Request) : Prop :=
  url r = lit "http://localhost:8000/api/stream"
  /\ max_sources r = 3%Z /\ stream r = true.

(** ** States and backends of the examples *)

(** A number printer to run examples with; the examples hold no number. *)
Definition lexeme_text (lexeme : jsstring) : jsstring := lexeme.

(** The state in which the bot message 8 of a streamed answer is open. *)
Definition streaming_state : State :=
  {| message := []; isLoading := true; useStreaming := true;
     messages :=
       [ {| id := 7; text := JString (lit "latest AI news"); sender := user;
            sources := None; isStreaming := None |};
         {| id := 8; text := JString (lit "The latest"); sender := bot;
            sources := Some (JArray []); isStreaming := Some true |} ];
     history := []; requests := [] |}.

(** The first render with the mode switched to non-streaming and a query
    typed in. *)
Definition regular_state : State :=
  {| message := lit "hello"; messages := []; isLoading := false;
     useStreaming := false; history := [[]]; requests := [] |}.

(** A backend whose answer holds a backslash followed by [n], and whose
    stream holds a frame of that answer. *)
Definition escaped_env : Env :=
  {| now_user := 1000; now_bot := 1200; now_error := 1200;
     query_transport :=
       QueryResponse true 200 (dq "{'answer':'Hi\\n there','sources':[]}");
     stream_transport :=
       StreamResponse true 200
         [dq "data: {'type':'token','content':'Hi\\n there'}" ++ [LF; LF]]
         EndOfStream |}.

(** A backend that cannot be reached. *)
Definition unreachable_env : Env :=
  {| now_user := 1000; now_bot := 1000; now_error := 1000;
     query_transport := QueryFetchRejects (lit "Failed to fetch");
     stream_transport := StreamFetchRejects (lit "Failed to fetch") |}.

(** A stream that delivers two tokens, the sources and a done frame. *)
Definition done_env (t : Z) : Env :=
  {| now_user := t; now_bot := t; now_error := t;
     query_transport := QueryFetchRejects (lit "Failed to fetch");
     stream_transport :=
       StreamResponse true 200
         [dq "data: {'type':'token','content':'The'}" ++ [LF; LF];
          dq "data: {'type':'token','content':' latest'}" ++ [LF; LF]
            ++ dq "data: {'type':'sources','sources':[{'title':'X','url':'http://x'}]}"
            ++ [LF; LF];
          dq "data: {'type':'done'}" ++ [LF; LF]]
         EndOfStream |}.

(** A stream that delivers one token and ends with no terminal frame. *)
Definition cut_env (t : Z) : Env :=
  {| now_user := t; now_bot := t; now_error := t;
     query_transport := QueryFetchRejects (lit "Failed to fetch");
     stream_transport :=
       StreamResponse true 200
         [dq "data: {'type':'token','content':'partial'}" ++ [LF; LF]]
         EndOfStream |}.

(** A stream in which a sources frame follows the done frame, in a chunk of
    its own. *)
Definition late_sources_env : Env :=
  {| now_user := 1000; now_bot := 1000; now_error := 1000;
     query_transport := QueryFetchRejects (lit "Failed to fetch");
     stream_transport :=
       StreamResponse true 200
         [dq "data: {'type':'token','content':'Hi'}" ++ [LF]
            ++ dq "data: {'type':'done'}" ++ [LF];
          dq "data: {'type':'sources','sources':[{'title':'X','url':'http://x'}]}"
            ++ [LF]]
         EndOfStream |}.

(** * Properties *)

(** ** Strings *)

Section StringFacts.

Lemma eqb_eq (s t : jsstring) : JS.eqb s t = true <-> s = t.
Proof.
  revert t; induction s as [|c s IH]; intros [|d t]; simpl; split;
    try congruence; try reflexivity.
  - intros H. apply andb_true_iff in H as [Hc Hs].
    apply N.eqb_eq in Hc. apply IH in Hs. congruence.
  - intros H. injection H as -> ->. rewrite N.eqb_refl. simpl. now apply IH.
Qed.

Lemma split_not_nil (sep : N) (s : jsstring) : split sep s <> [].
Proof.
  destruct s as [|c t]; simpl; [discriminate|].
  destruct (N.eqb c sep); [discriminate|].
  destruct (split sep t); discriminate.
Qed.

(** Splitting at an occurrence of the separator splits the list of pieces. *)
Lemma split_app (sep : N) (a b : jsstring) :
  split sep (a ++ sep :: b) = split sep a ++ split sep b.
Proof.
  induction a as [|c a IH]; simpl.
  - now rewrite N.eqb_refl.
  - destruct (N.eqb c sep); [now rewrite IH|].
    rewrite IH. destruct (split sep a) as [|l ls] eqn:E; [|reflexivity].
    now apply split_not_nil in E.
Qed.

Lemma split_no_sep (sep : N) (s : jsstring) :
  ~ In sep s -> split sep s = [s].
Proof.
  induction s as [|c s IH]; simpl; intros H; [reflexivity|].
  destruct (N.eqb_spec c sep) as [->|_]; [exfalso; auto|].
  rewrite IH; auto.
Qed.

Lemma replace_absent (a b : N) (rep s : jsstring) :
  ~ In a s -> replace a b rep s = s.
Proof.
  induction s as [|c t IH]; simpl; intros H; [reflexivity|].
  destruct t as [|d t']; [reflexivity|].
  destruct (N.eqb_spec c a) as [->|_]; [exfalso; auto|].
  simpl. f_equal. apply IH. intros Hin. apply H. now right.
Qed.

Lemma trimStart_incl (s : jsstring) (c : N) : In c (trimStart s) -> In c s.
Proof.
  induction s as [|d s IH]; simpl; [auto|].
  destruct (isWhiteSpace d); [auto|]. now intros H.
Qed.

Lemma trim_incl (s : jsstring) (c : N) : In c (trim s) -> In c s.
Proof.
  unfold trim, trimEnd. intros H. apply in_rev in H.
  apply trimStart_incl in H. apply in_rev in H. now apply trimStart_incl.
Qed.

Lemma trimStart_idem (s : jsstring) : trimStart (trimStart s) = trimStart s.
Proof.
  induction s as [|c s IH]; simpl; [reflexivity|].
  destruct (isWhiteSpace c) eqn:E; [exact IH|]. simpl. now rewrite E.
Qed.

Lemma trimStart_snoc (s : jsstring) (c : N) :
  isWhiteSpace c = false -> trimStart (s ++ [c]) = trimStart s ++ [c].
Proof.
  intros Hc. induction s as [|d s IH]; simpl.
  - now rewrite Hc.
  - destruct (isWhiteSpace d); [exact IH|reflexivity].
Qed.

Lemma trimEnd_cons (s : jsstring) (c : N) :
  isWhiteSpace c = false -> trimEnd (c :: s) = c :: trimEnd s.
Proof.
  intros Hc. unfold trimEnd. simpl.
  rewrite trimStart_snoc by exact Hc. rewrite rev_app_distr. reflexivity.
Qed.

Lemma trimStart_head (s : jsstring) :
  match trimStart s with
  | [] => True
  | c :: _ => isWhiteSpace c = false
  end.
Proof.
  induction s as [|c s IH]; simpl; [exact I|].
  destruct (isWhiteSpace c) eqn:E; [exact IH|exact E].
Qed.

Lemma trim_idem (s : jsstring) : trim (trim s) = trim s.
Proof.
  unfold trim. pose proof (trimStart_head s) as H.
  destruct (trimStart s) as [|c u]; [reflexivity|].
  rewrite (@trimEnd_cons u c H). simpl. rewrite H.
  rewrite <- (@trimEnd_cons u c H). unfold trimEnd.
  now rewrite rev_involutive, trimStart_idem.
Qed.

Lemma trim_repeat (c : N) (k : nat) :
  isWhiteSpace c = false -> trim (repeat c k) = repeat c k.
Proof.
  intros Hc. unfold trim, trimEnd.
  assert (H : forall j, trimStart (repeat c j) = repeat c j).
  { intros [|j]; simpl; [reflexivity|now rewrite Hc]. }
  now rewrite H, rev_repeat, H, rev_repeat.
Qed.

Lemma replace_repeat_other (a b : N) (rep : jsstring) (k : nat) :
  a <> b -> replace a b rep (repeat a k) = repeat a k.
Proof.
  intros Hab. induction k as [|k IH]; [reflexivity|].
  cbn [repeat replace]. destruct (repeat a k) as [|d t] eqn:E; [reflexivity|].
  assert (Hd : d = a).
  { destruct k; simpl in E; [discriminate|congruence]. }
  subst d. destruct (N.eqb_spec a b) as [->|_]; [contradiction|].
  rewrite andb_false_r. now rewrite IH.
Qed.

Lemma replace_repeat_pairs (a : N) (n : nat) :
  replace a a [a] (repeat a (2 * n)) = repeat a n.
Proof.
  induction n as [|n IH]; [reflexivity|].
  replace (2 * S n) with (S (S (2 * n))) by lia.
  cbn [repeat replace]. rewrite N.eqb_refl. cbn [andb app]. now rewrite IH.
Qed.

End StringFacts.

(** ** [JSON.parse] and its fuel *)

Section ParseFacts.

Ltac step_parse IHv IHe IHm f' Hle H :=
  match type of H with
  | context [match ?e with _ => _ end] =>
      lazymatch e with
      | parse_value _ _ =>
          let E := fresh "E" in
          destruct e as [[? ?]|] eqn:E; [|discriminate H];
          rewrite (IHv _ _ E f' Hle)
      | parse_elements _ _ =>
          let E := fresh "E" in
          destruct e as [[? ?]|] eqn:E; [|discriminate H];
          rewrite (IHe _ _ E f' Hle)
      | parse_members _ _ =>
          let E := fresh "E" in
          destruct e as [[? ?]|] eqn:E; [|discriminate H];
          rewrite (IHm _ _ E f' Hle)
      | _ => destruct e eqn:?; try discriminate H
      end
  end.

(** A successful parse stays the same with more fuel. *)
Lemma parse_fuel_mono (f : nat) :
  (forall s x, parse_value f s = Some x ->
     forall f', f <= f' -> parse_value f' s = Some x)
  /\ (forall s x, parse_elements f s = Some x ->
        forall f', f <= f' -> parse_elements f' s = Some x)
  /\ (forall s x, parse_members f s = Some x ->
        forall f', f <= f' -> parse_members f' s = Some x).
Proof.
  induction f as [|f (IHv & IHe & IHm)].
  - repeat split; intros s x H; discriminate H.
  - repeat split; intros s x H [|f'] Hle; try lia;
      assert (Hle' : f <= f') by lia;
      cbn [parse_value parse_elements parse_members] in H |- *;
      repeat step_parse IHv IHe IHm f' Hle' H; try exact H.
Qed.

Lemma skip_ws_length (s : jsstring) : List.length (skip_ws s) <= List.length s.
Proof.
  induction s as [|c s IH]; simpl; [lia|].
  destruct (isJSONSpace c); simpl; lia.
Qed.

Lemma cons_fst_Some (c : N) (r : option (jsstring * jsstring))
  (str rest : jsstring) :
  cons_fst c r = Some (str, rest) -> exists str', r = Some (str', rest).
Proof.
  destruct r as [[str' rest']|]; simpl; [|discriminate].
  intros H. injection H as <- <-. now exists str'.
Qed.

Lemma parse_chars_length (s str r : jsstring) :
  parse_chars s = Some (str, r) -> List.length r < List.length s.
Proof.
  remember (List.length s) as n eqn:Hn. revert s str r Hn.
  induction n as [n IH] using lt_wf_ind. intros s str r -> H.
  assert (IH' : forall t str', List.length t < List.length s ->
                  parse_chars t = Some (str', r) ->
                  List.length r < List.length t).
  { intros t str' Hlt E. now apply (IH (List.length t) Hlt t str' r). }
  clear IH. destruct s as [|c t]; [discriminate|]. simpl in H, IH'.
  destruct (c =? 34)%N; [injection H as <- <-; simpl; lia|].
  destruct (c =? 92)%N.
  - destruct t as [|e t1]; [discriminate|].
    destruct (e =? 117)%N.
    + destruct t1 as [|h1 [|h2 [|h3 [|h4 t2]]]]; try discriminate.
      destruct (hex4 h1 h2 h3 h4); [|discriminate].
      apply cons_fst_Some in H as [str' E].
      apply IH' in E; simpl in *; lia.
    + destruct (simple_escape e); [|discriminate].
      apply cons_fst_Some in H as [str' E].
      apply IH' in E; simpl in *; lia.
  - destruct (c <? 32)%N; [discriminate|].
    apply cons_fst_Some in H as [str' E].
    apply IH' in E; simpl in *; lia.
Qed.

Lemma digits_length (s : jsstring) :
  List.length (snd (digits s)) <= List.length s.
Proof.
  induction s as [|c s IH]; simpl; [lia|].
  destruct (isDigit c); [|simpl; lia].
  destruct (digits s); simpl in *; lia.
Qed.

Lemma parse_int_length (s i r : jsstring) :
  parse_int s = Some (i, r) -> List.length r < List.length s.
Proof.
  destruct s as [|c t]; simpl; [discriminate|].
  destruct (c =? 48)%N; [intros H; injection H as <- <-; lia|].
  destruct (isDigit c); [|discriminate].
  pose proof (digits_length t). destruct (digits t).
  intros H'; injection H' as <- <-. simpl in *. lia.
Qed.

Lemma parse_frac_length (s f r : jsstring) :
  parse_frac s = Some (f, r) -> List.length r <= List.length s.
Proof.
  destruct s as [|c t]; simpl; [intros H; injection H as <- <-; simpl; lia|].
  destruct (c =? 46)%N; [|intros H; injection H as <- <-; simpl; lia].
  pose proof (digits_length t). destruct (digits t) as [[|d ds] r'];
    [discriminate|].
  intros H'; injection H' as <- <-. simpl in *. lia.
Qed.

Lemma parse_exp_length (s e r : jsstring) :
  parse_exp s = Some (e, r) -> List.length r <= List.length s.
Proof.
  destruct s as [|c t]; simpl; [intros H; injection H as <- <-; simpl; lia|].
  destruct ((c =? 101) || (c =? 69))%N;
    [|intros H; injection H as <- <-; simpl; lia].
  destruct t as [|g t'].
  - simpl. discriminate.
  - destruct ((g =? 43) || (g =? 45))%N.
    + pose proof (digits_length t'). destruct (digits t') as [[|d ds] r'];
        [discriminate|].
      intros H'; injection H' as <- <-. simpl in *. lia.
    + pose proof (digits_length (g :: t')).
      destruct (digits (g :: t')) as [[|d ds] r']; [discriminate|].
      intros H'; injection H' as <- <-. simpl in *. lia.
Qed.

Lemma parse_number_length (s lexeme r : jsstring) :
  parse_number s = Some (lexeme, r) -> List.length r < List.length s.
Proof.
  unfold parse_number.
  assert (Hs : forall sign s1,
             (let (sign, s1) :=
                match s with
                | c :: t => if (c =? 45)%N then ([c], t) else ([], s)
                | [] => ([], s)
                end in (sign, s1)) = (sign, s1) ->
             List.length s1 <= List.length s).
  { intros sign s1. destruct s as [|c t]; [intros H; injection H as <- <-; lia|].
    destruct (c =? 45)%N; intros H; injection H as <- <-; simpl; lia. }
  destruct (match s with
            | c :: t => if (c =? 45)%N then ([c], t) else ([], s)
            | [] => ([], s)
            end) as [sign s1].
  specialize (Hs sign s1 eq_refl).
  destruct (parse_int s1) as [[i s2]|] eqn:Ei; [|discriminate].
  apply parse_int_length in Ei.
  destruct (parse_frac s2) as [[f s3]|] eqn:Ef; [|discriminate].
  apply parse_frac_length in Ef.
  destruct (parse_exp s3) as [[e s4]|] eqn:Ee; [|discriminate].
  apply parse_exp_length in Ee.
  intros H; injection H as <- <-. lia.
Qed.

Lemma expect_length (word : jsstring) (v v' : value) (s r : jsstring) :
  word <> [] -> expect word v s = Some (v', r) -> List.length r < List.length s.
Proof.
  unfold expect. intros Hw. destruct (startsWith word s) eqn:E; [|discriminate].
  intros H; injection H as <- <-.
  assert (Hl : forall w t, startsWith w t = true -> List.length w <= List.length t).
  { induction w as [|a w IHw]; intros [|b t]; simpl; try lia; try discriminate.
    intros Hab. apply andb_true_iff in Hab as [_ Hab]. apply IHw in Hab. lia. }
  apply Hl in E. rewrite length_skipn. destruct word; [contradiction|].
  simpl in *. lia.
Qed.

Ltac crack IHv IHe IHm H :=
  match type of H with
  | context [match ?e with _ => _ end] =>
      lazymatch e with
      | parse_value _ _ =>
          let E := fresh "E" in
          destruct e as [[? ?]|] eqn:E; [|discriminate H];
          apply IHv in E; destruct E as [? ?]
      | parse_elements _ _ =>
          let E := fresh "E" in
          destruct e as [[? ?]|] eqn:E; [|discriminate H];
          apply IHe in E; destruct E as [? ?]
      | parse_members _ _ =>
          let E := fresh "E" in
          destruct e as [[? ?]|] eqn:E; [|discriminate H];
          apply IHm in E; destruct E as [? ?]
      | skip_ws ?a =>
          let L := fresh "L" in
          pose proof (skip_ws_length a) as L; destruct e eqn:?;
          try discriminate H
      | parse_chars _ =>
          let E := fresh "E" in
          destruct e as [[? ?]|] eqn:E; [|discriminate H];
          pose proof (@parse_chars_length _ _ _ E)
      | parse_number _ =>
          let E := fresh "E" in
          destruct e as [[? ?]|] eqn:E; [|discriminate H];
          pose proof (@parse_number_length _ _ _ E)
      | _ => destruct e eqn:?; try discriminate H
      end
  end.

Ltac refuel g :=
  repeat match goal with
    | E : parse_value ?k ?t = Some ?x |- context [parse_value g ?t] =>
        rewrite (proj1 (parse_fuel_mono k) t x E g ltac:(cbn [List.length] in *; lia))
    | E : parse_elements ?k ?t = Some ?x |- context [parse_elements g ?t] =>
        rewrite (proj1 (proj2 (parse_fuel_mono k)) t x E g ltac:(cbn [List.length] in *; lia))
    | E : parse_members ?k ?t = Some ?x |- context [parse_members g ?t] =>
        rewrite (proj2 (proj2 (parse_fuel_mono k)) t x E g ltac:(cbn [List.length] in *; lia))
    | E : ?e = _ |- context [match ?e with _ => _ end] => rewrite E
    end.

Ltac bound_case IHv IHe IHm H :=
  cbn [parse_value parse_elements parse_members] in H;
  repeat crack IHv IHe IHm H;
  try match type of H with
      | expect ?w _ _ = Some _ =>
          let W := fresh "W" in
          assert (W : w <> []) by (vm_compute; discriminate);
          pose proof (@expect_length _ _ _ _ _ W H)
      end;
  try (injection H as <- <-);
  (split; [cbn [List.length] in *; lia|]);
  match goal with
  | |- _ (2 * ?k) _ = _ =>
      let k' := fresh "k" in
      let K := fresh "K" in
      destruct k as [|k'] eqn:K; [exfalso; cbn [List.length] in *; lia|];
      replace (2 * S k') with (S (S (2 * k'))) by lia;
      let g := fresh "g" in
      remember (S (2 * k')) as g;
      cbn [parse_value parse_elements parse_members];
      refuel g; try reflexivity; try assumption
  end.

(** A successful parse uses some of the text, and succeeds with twice as much
    fuel as it uses code units. *)
Lemma parse_fuel_bound (f : nat) :
  (forall s v r, parse_value f s = Some (v, r) ->
     List.length r < List.length s
     /\ parse_value (2 * (List.length s - List.length r)) s = Some (v, r))
  /\ (forall s vs r, parse_elements f s = Some (vs, r) ->
        List.length r < List.length s
        /\ parse_elements (2 * (List.length s - List.length r)) s = Some (vs, r))
  /\ (forall s ps r, parse_members f s = Some (ps, r) ->
        List.length r < List.length s
        /\ parse_members (2 * (List.length s - List.length r)) s = Some (ps, r)).
Proof.
  induction f as [|f (IHv & IHe & IHm)].
  - repeat split; discriminate.
  - split; [|split]; intros s v r H.
    + bound_case IHv IHe IHm H.
    + bound_case IHv IHe IHm H.
    + bound_case IHv IHe IHm H.
Qed.

(** [JSON.parse] accepts a text exactly when the grammar does, with whatever
    fuel: the fuel [parse] gives is enough. *)
Lemma parse_fuel_independent (text : jsstring) (v : value) :
  JSON.parse text = Some v
  <-> exists fuel r, parse_value fuel text = Some (v, r) /\ skip_ws r = [].
Proof.
  unfold JSON.parse. split.
  - destruct (parse_value _ text) as [[v' r]|] eqn:E; [|discriminate].
    destruct (skip_ws r) eqn:Er; [|discriminate].
    intros H. injection H as <-. eauto.
  - intros (fuel & r & E & Er).
    apply (proj1 (parse_fuel_bound fuel)) in E as [Hlt E].
    rewrite (proj1 (parse_fuel_mono _) _ _ E (2 * List.length text + 2)) by lia.
    now rewrite Er.
Qed.

End ParseFacts.

(** ** The text normalizer *)

Section NormalizerFacts.

Lemma unescape_specific_clean (s : jsstring) :
  ~ In BACKSLASH s -> unescape_specific s = s.
Proof.
  intros H. unfold unescape_specific.
  now repeat rewrite (@replace_absent BACKSLASH _ _ s H).
Qed.

Lemma collapse_backslashes_clean (s : jsstring) :
  ~ In BACKSLASH s -> collapse_backslashes s = s.
Proof. intros H. now apply replace_absent. Qed.

(** A string with no backslash that is not wrapped in quotes once trimmed is
    only trimmed. *)
Lemma cleanMarkdownText_trim (s : jsstring) :
  ~ In BACKSLASH s ->
  startsWith [QUOTE] (trim s) && endsWith [QUOTE] (trim s) = false ->
  cleanMarkdownText (Some s) = trim s.
Proof.
  intros Hb Hq. destruct s as [|c s]; [reflexivity|].
  unfold cleanMarkdownText, strip_quotes. rewrite Hq.
  assert (Ht : ~ In BACKSLASH (trim (c :: s))).
  { intros Hin. apply Hb. now apply trim_incl. }
  now rewrite unescape_specific_clean, collapse_backslashes_clean.
Qed.

(** Doubled backslashes are halved, once. *)
Lemma cleanMarkdownText_backslashes (n : nat) :
  cleanMarkdownText (Some (repeat BACKSLASH (2 * n))) = repeat BACKSLASH n.
Proof.
  destruct n as [|n]; [reflexivity|].
  replace (2 * S n) with (S (S (2 * n))) by lia.
  change (cleanMarkdownText (Some (repeat BACKSLASH (S (S (2 * n))))))
    with (collapse_backslashes
            (unescape_specific
               (strip_quotes (trim (repeat BACKSLASH (S (S (2 * n)))))))).
  rewrite trim_repeat by reflexivity.
  change (strip_quotes (repeat BACKSLASH (S (S (2 * n)))))
    with (repeat BACKSLASH (S (S (2 * n)))).
  unfold unescape_specific.
  rewrite !replace_repeat_other by discriminate.
  replace (S (S (2 * n))) with (2 * S n) by lia.
  apply replace_repeat_pairs.
Qed.

(** C6. The normalizer maps the quoted text [Hello \n world\*], whose
    backslash-n and backslash-asterisk are two code units each, to
    [Hello], a line feed, [world*], without the wrapping quotes; and on every
    non-empty string it is the nine specific un-escapes, in the order of the
    source, followed by the collapse of doubled backslashes, which runs last
    and once: a run of 2n backslashes becomes n backslashes, and a doubled
    backslash before [n] becomes a backslash and a line feed. *)
Theorem cleanMarkdownText_unescapes_then_collapses :
  cleanMarkdownText (Some (dq "'Hello \n world\*'"))
  = lit "Hello " ++ [LF] ++ lit " world*"
  /\ (forall c s,
        cleanMarkdownText (Some (c :: s))
        = replace BACKSLASH BACKSLASH [BACKSLASH]
            (unescape_specific (strip_quotes (trim (c :: s)))))
  /\ (forall s,
        unescape_specific s
        = fold_left (fun acc '(e, r) => replace BACKSLASH e [r] acc)
            [(110, LF); (116, TAB); (34, QUOTE); (42, 42); (35, 35);
             (91, 91); (93, 93); (40, 40); (41, 41)]%N s)
  /\ (forall n,
        cleanMarkdownText (Some (repeat BACKSLASH (2 * n)))
        = repeat BACKSLASH n)
  /\ cleanMarkdownText (Some (lit "\\n")) = BACKSLASH :: [LF].
Proof.
  split; [vm_compute; reflexivity|].
  split; [reflexivity|].
  split; [reflexivity|].
  split; [exact cleanMarkdownText_backslashes|].
  vm_compute. reflexivity.
Qed.

(** The claim of C3 fails: a doubled backslash before an asterisk is
    normalized to backslash-asterisk, which a second pass un-escapes. *)
Lemma cleanMarkdownText_not_idempotent :
  cleanMarkdownText (Some (lit "\\*")) = lit "\*"
  /\ cleanMarkdownText (Some (lit "\*")) = lit "*"
  /\ cleanMarkdownText (Some (cleanMarkdownText (Some (lit "\\*"))))
     <> cleanMarkdownText (Some (lit "\\*")).
Proof. repeat split; vm_compute; try reflexivity; discriminate. Qed.

(** C3, amended. The normalizer is idempotent on every string that holds no
    backslash and, once trimmed, is not wrapped in double quotes. *)
Theorem cleanMarkdownText_idempotent_on_clean (s : jsstring) :
  ~ In BACKSLASH s ->
  startsWith [QUOTE] (trim s) && endsWith [QUOTE] (trim s) = false ->
  cleanMarkdownText (Some (cleanMarkdownText (Some s)))
  = cleanMarkdownText (Some s).
Proof.
  intros Hb Hq. rewrite (@cleanMarkdownText_trim s Hb Hq).
  transitivity (trim (trim s)); [|apply trim_idem].
  apply cleanMarkdownText_trim.
  - intros Hin. apply Hb. now apply trim_incl.
  - now rewrite trim_idem.
Qed.

Lemma cleanMarkdownText_idempotent_on_clean_witness :
  cleanMarkdownText (Some (cleanMarkdownText (Some (lit "  **bold** text "))))
  = cleanMarkdownText (Some (lit "  **bold** text ")).
Proof.
  apply cleanMarkdownText_idempotent_on_clean.
  - vm_compute. intuition discriminate.
  - vm_compute. reflexivity.
Defined.

End NormalizerFacts.

(** ** The frame decoder *)

Section DecoderFacts.

Variable S : Type.
Variable cb : Callbacks S.

Lemma handle_line_empty (st : S) : handle_line cb st [] = st.
Proof. reflexivity. Qed.

(** A malformed frame leaves the state as it is. *)
Lemma handle_line_malformed (st : S) (line : jsstring) :
  JSON.parse (slice line 6 None) = None -> handle_line cb st line = st.
Proof.
  intros H. unfold handle_line. rewrite H. now destruct (startsWith _ line).
Qed.

(** A line terminator inside a chunk separates two runs of the loop body. *)
Lemma handle_chunk_app (st : S) (a b : jsstring) :
  handle_chunk cb st (a ++ LF :: b) = handle_chunk cb (handle_chunk cb st a) b.
Proof. unfold handle_chunk. now rewrite split_app, fold_left_app. Qed.

Lemma endsWith_LF (a : jsstring) :
  endsWith [LF] a = true -> exists a', a = a' ++ [LF].
Proof.
  unfold endsWith. change (rev [LF]) with [LF].
  destruct (rev a) as [|c r] eqn:E; cbn [startsWith]; [discriminate|].
  intros H. apply andb_true_iff in H as [H _]. apply N.eqb_eq in H. subst c.
  exists (rev r). rewrite <- (rev_involutive a), E. reflexivity.
Qed.

(** A chunk that ends with a line terminator can be handled apart from what
    follows it. *)
Lemma handle_chunk_cut (st : S) (a b : jsstring) :
  endsWith [LF] a = true ->
  handle_chunk cb st (a ++ b) = handle_chunk cb (handle_chunk cb st a) b.
Proof.
  intros H. apply endsWith_LF in H as [a' ->].
  rewrite <- app_assoc. simpl. rewrite !handle_chunk_app. reflexivity.
Qed.

Lemma read_loop_cons (st : S) (c : jsstring) (cs : list jsstring) :
  read_loop cb (c :: cs) st = read_loop cb cs (handle_chunk cb st c).
Proof. reflexivity. Qed.

Lemma read_loop_app (st : S) (cs1 cs2 : list jsstring) :
  read_loop cb (cs1 ++ cs2) st = read_loop cb cs2 (read_loop cb cs1 st).
Proof. apply fold_left_app. Qed.

Lemma read_loop_aligned (chunks : list jsstring) (last : jsstring) (st : S) :
  Forall (fun c => endsWith [LF] c = true) chunks ->
  read_loop cb (chunks ++ [last]) st = handle_chunk cb st (List.concat chunks ++ last).
Proof.
  intros H. revert st. induction H as [|c cs Hc _ IH]; intros st; [reflexivity|].
  simpl List.concat. rewrite <- app_assoc, (@handle_chunk_cut st c _ Hc).
  rewrite <- IH. reflexivity.
Qed.

(** The loop body over the lines of a chunk skips a malformed frame. *)
Lemma handle_lines_skip (st : S) (pre post : list jsstring) (line : jsstring) :
  JSON.parse (slice line 6 None) = None ->
  fold_left (handle_line cb) (pre ++ line :: post) st
  = fold_left (handle_line cb) (pre ++ post) st.
Proof.
  intros H. rewrite !fold_left_app. simpl.
  now rewrite handle_line_malformed.
Qed.

End DecoderFacts.

(** The claim of C1 fails: a frame cut in two by a chunk boundary is lost,
    where the same text in one chunk yields its event. *)
Lemma decode_depends_on_chunking :
  decode [dq "data: {'type':'to"; dq "ken','content':'Hi'}" ++ [LF]] = []
  /\ decode [dq "data: {'type':'to" ++ dq "ken','content':'Hi'}" ++ [LF]]
     = [Token (JString (lit "Hi"))].
Proof. split; vm_compute; reflexivity. Qed.

(** C1, amended. For every text and every way of cutting it into chunks such
    that each chunk but the last ends with a line terminator, the decoder
    dispatches the events it dispatches for the text in one chunk. *)
Theorem decode_line_aligned_chunks (chunks : list jsstring) (last : jsstring) :
  Forall (fun c => endsWith [LF] c = true) chunks ->
  decode (chunks ++ [last]) = decode [List.concat (chunks ++ [last])].
Proof.
  intros H. unfold decode. rewrite (@read_loop_aligned _ recorder chunks last [] H).
  rewrite concat_app. simpl. now rewrite app_nil_r.
Qed.

Lemma decode_line_aligned_chunks_witness :
  decode ([dq "data: {'type':'token','content':'Hi'}" ++ [LF]; [LF]]
          ++ [dq "data: {'type':'done'}" ++ [LF; LF]])
  = decode [List.concat ([dq "data: {'type':'token','content':'Hi'}" ++ [LF]; [LF]]
                    ++ [dq "data: {'type':'done'}" ++ [LF; LF]])].
Proof.
  apply decode_line_aligned_chunks.
  repeat constructor.
Defined.

(** C9. A frame whose JSON does not parse is dropped where it stands: the
    loop body leaves the state as it is, the lines of the chunk before and
    after it are handled as if it were not there, so a stream with such a
    frame between two line terminators dispatches what the stream without it
    dispatches; the valid frame on the line after it is dispatched, its
    callback invoked with its payload on the state the lines before the
    malformed frame had left, and the lines after that are handled in turn;
    and the outer [try] block throws nothing. *)
Theorem malformed_frame_is_skipped (S : Type) (cb : Callbacks S)
  (line : jsstring) :
  startsWith (lit "data: ") line = true ->
  JSON.parse (slice line 6 None) = None ->
  (forall st, handle_line cb st line = st)
  /\ (forall st chunk pre post,
        split LF chunk = pre ++ line :: post ->
        handle_chunk cb st chunk = fold_left (handle_line cb) (pre ++ post) st)
  /\ (~ In LF line ->
      forall st before a b after,
        read_loop cb (before ++ (a ++ LF :: line ++ LF :: b) :: after) st
        = read_loop cb (before ++ (a ++ LF :: b) :: after) st)
  /\ (~ In LF line ->
      forall next props ty e,
        ~ In LF next ->
        startsWith (lit "data: ") next = true ->
        JSON.parse (slice next 6 None) = Some (JObject props) ->
        JSON.lookup (lit "type") props = JString ty ->
        (ty = lit "token" /\ e = Token (JSON.lookup (lit "content") props))
        \/ (ty = lit "sources" /\ e = Sources (JSON.lookup (lit "sources") props))
        \/ (ty = lit "error" /\ e = Failure (JSON.lookup (lit "error") props))
        \/ (ty = lit "done" /\ e = Done) ->
        forall st before a b after,
          read_loop cb
            (before ++ (a ++ LF :: line ++ LF :: next ++ LF :: b) :: after) st
          = read_loop cb after
              (handle_chunk cb
                 (invoke cb (handle_chunk cb (read_loop cb before st) a) e) b))
  /\ (forall st status chunks,
        streamMessage_try cb (StreamResponse true status chunks EndOfStream) st
        = (None, read_loop cb chunks st)).
Proof.
  intros _ Hp.
  assert (Hline : ~ In LF line -> forall st, handle_chunk cb st line = st).
  { intros Hl st. unfold handle_chunk. rewrite (@split_no_sep LF line Hl).
    simpl. now apply handle_line_malformed. }
  split; [|split; [|split; [|split]]].
  - intros st. now apply handle_line_malformed.
  - intros st chunk pre post E. unfold handle_chunk. rewrite E.
    now apply handle_lines_skip.
  - intros Hl st before a b after. rewrite !read_loop_app, !read_loop_cons.
    apply (f_equal (read_loop cb after)).
    rewrite !handle_chunk_app. apply (f_equal (fun s => handle_chunk cb s b)).
    now apply Hline.
  - intros Hl next props ty e Hn Hs Hnext Hty He st before a b after.
    rewrite read_loop_app, read_loop_cons.
    apply (f_equal (read_loop cb after)).
    rewrite !handle_chunk_app. apply (f_equal (fun s => handle_chunk cb s b)).
    rewrite (Hline Hl). unfold handle_chunk at 1.
    rewrite (@split_no_sep LF next Hn). simpl.
    unfold handle_line. rewrite Hs, Hnext. unfold dispatch.
    cbn [JSON.get]. rewrite Hty.
    destruct He as [[-> ->]|[[-> ->]|[[-> ->]|[-> ->]]]]; reflexivity.
  - reflexivity.
Qed.

Lemma malformed_frame_is_skipped_witness :
  decode [dq "data: {'type':'token','content':'a'}" ++ LF
            :: dq "data: {'type':'token','content" ++ LF
            :: dq "data: {'type':'token','content':'b'}" ++ LF
            :: dq "data: {'type':'done'}"]
  = [Token (JString (lit "a")); Token (JString (lit "b")); Done].
Proof.
  refine (proj1 (proj2 (proj2 (proj2
    (@malformed_frame_is_skipped _ recorder (dq "data: {'type':'token','content") _ _))))
    _ (dq "data: {'type':'token','content':'b'}")
    [(lit "type", JString (lit "token")); (lit "content", JString (lit "b"))]
    (lit "token") (Token (JString (lit "b"))) _ _ _ _ _
    [] [] (dq "data: {'type':'token','content':'a'}")
    (dq "data: {'type':'done'}") []).
  - vm_compute. reflexivity.
  - vm_compute. reflexivity.
  - vm_compute. intuition discriminate.
  - vm_compute. intuition discriminate.
  - vm_compute. reflexivity.
  - vm_compute. reflexivity.
  - vm_compute. reflexivity.
  - left. split; reflexivity.
Defined.

(** ** Callbacks as a replay of the recorded events *)

Section Replay.

Variable S : Type.
Variable cb : Callbacks S.

Ltac split_cases :=
  repeat match goal with
         | |- context [match ?x with _ => _ end] => destruct x eqn:?
         end.

Lemma dispatch_recorder (data : value) (log : list ProtocolEvent) :
  dispatch recorder data log
  = option_map (fun evs => log ++ evs) (dispatch recorder data []).
Proof.
  unfold dispatch. split_cases; simpl; rewrite ?app_nil_r; reflexivity.
Qed.

Lemma dispatch_replay (data : value) (st : S) :
  dispatch cb data st
  = option_map (fun evs => fold_left (invoke cb) evs st)
      (dispatch recorder data []).
Proof.
  unfold dispatch. split_cases; reflexivity.
Qed.

Lemma handle_line_recorder (log : list ProtocolEvent) (line : jsstring) :
  handle_line recorder log line = log ++ handle_line recorder [] line.
Proof.
  unfold handle_line. destruct (startsWith _ line); [|now rewrite app_nil_r].
  destruct (JSON.parse _) as [data|]; [|now rewrite app_nil_r].
  rewrite dispatch_recorder.
  destruct (dispatch recorder data []); simpl; now rewrite ?app_nil_r.
Qed.

Lemma handle_line_replay (st : S) (line : jsstring) :
  handle_line cb st line
  = fold_left (invoke cb) (handle_line recorder [] line) st.
Proof.
  unfold handle_line. destruct (startsWith _ line); [|reflexivity].
  destruct (JSON.parse _) as [data|]; [|reflexivity].
  rewrite dispatch_replay. now destruct (dispatch recorder data []).
Qed.

Lemma handle_lines_replay (lines : list jsstring) (st : S)
  (log : list ProtocolEvent) :
  fold_left (invoke cb) (fold_left (handle_line recorder) lines log) st
  = fold_left (handle_line cb) lines (fold_left (invoke cb) log st).
Proof.
  revert st log. induction lines as [|line lines IH]; intros st log;
    [reflexivity|].
  simpl. rewrite IH, handle_line_recorder, fold_left_app.
  now rewrite <- handle_line_replay.
Qed.

Lemma read_loop_replay (chunks : list jsstring) (st : S)
  (log : list ProtocolEvent) :
  fold_left (invoke cb) (read_loop recorder chunks log) st
  = read_loop cb chunks (fold_left (invoke cb) log st).
Proof.
  revert st log. induction chunks as [|c chunks IH]; intros st log;
    [reflexivity|].
  rewrite !read_loop_cons, IH. unfold handle_chunk.
  now rewrite handle_lines_replay.
Qed.

(** [streamMessage] invokes the callbacks as [calls] lists them, and its
    promise is fulfilled. *)
Lemma streamMessage_replay (t : StreamTransport) (st : S) :
  streamMessage cb t st = (fold_left (invoke cb) (calls t) st, Fulfilled tt).
Proof.
  unfold calls, streamMessage, streamMessage_try.
  destruct t as [message|ok status chunks ending]; [reflexivity|].
  destruct ok; [|reflexivity].
  destruct ending; simpl.
  - now rewrite (read_loop_replay chunks st []).
  - rewrite fold_left_app. simpl.
    now rewrite (read_loop_replay chunks st []).
Qed.

End Replay.

(** ** The ledger under the stream callbacks *)

Section LedgerFacts.

Variable Number_toString : jsstring -> jsstring.

(** The callback of an event that converts issues one update. *)
Lemma invoke_callbacks (b : Z) (st : State) (acc : jsstring) (e : ProtocolEvent) :
  converts Number_toString e = true ->
  invoke (callbacks Number_toString b) (st, acc) e
  = (setMessages (patch b (event_patch Number_toString acc e)) st, event_text Number_toString acc e).
Proof.
  destruct e as [token| | |]; try reflexivity.
  unfold converts, event_patch, event_text. simpl.
  destruct (ToString Number_toString token); [reflexivity|discriminate].
Qed.

(** The callback of a token that cannot be converted does nothing. *)
Lemma invoke_throws (b : Z) (st : State) (acc : jsstring) (e : ProtocolEvent) :
  converts Number_toString e = false ->
  invoke (callbacks Number_toString b) (st, acc) e = (st, acc).
Proof.
  destruct e as [token| | |]; try discriminate.
  unfold converts. simpl.
  destruct (ToString Number_toString token); [discriminate|reflexivity].
Qed.

Lemma event_text_throws (acc : jsstring) (e : ProtocolEvent) :
  converts Number_toString e = false -> event_text Number_toString acc e = acc.
Proof.
  destruct e as [token| | |]; try discriminate.
  unfold converts, event_text.
  destruct (ToString Number_toString token); [discriminate|reflexivity].
Qed.

Lemma event_patch_key (acc : jsstring) (e : ProtocolEvent) (m : Message) :
  key (event_patch Number_toString acc e m) = key m.
Proof. destruct e; reflexivity. Qed.

Lemma event_patch_streaming (acc : jsstring) (e : ProtocolEvent) (m : Message) :
  streaming (event_patch Number_toString acc e m) = true -> streaming m = true.
Proof. destruct e; simpl; unfold streaming; simpl; congruence. Qed.

Lemma event_patch_terminal (acc : jsstring) (e : ProtocolEvent) (m : Message) :
  terminal e = true -> streaming (event_patch Number_toString acc e m) = false.
Proof. destruct e; simpl; try discriminate; reflexivity. Qed.

Lemma patch_length (b : Z) (f : Message -> Message) (l : list Message) :
  List.length (patch b f l) = List.length l.
Proof. apply length_map. Qed.

Lemma patch_nth_error (b : Z) (f : Message -> Message) (l : list Message)
  (i : nat) :
  nth_error (patch b f l) i
  = option_map (fun m => if Z.eqb (id m) b then f m else m) (nth_error l i).
Proof. apply nth_error_map. Qed.

Lemma patch_key (b : Z) (f : Message -> Message) (l : list Message) :
  (forall m, key (f m) = key m) ->
  map key (patch b f l) = map key l.
Proof.
  intros Hf. unfold patch. rewrite map_map. apply map_ext.
  intros m. now destruct (Z.eqb (id m) b).
Qed.

Lemma patch_open_count (b : Z) (f : Message -> Message) (l : list Message) :
  (forall m, streaming (f m) = true -> streaming m = true) ->
  open_count (patch b f l) <= open_count l.
Proof.
  intros Hf. unfold open_count. induction l as [|m l IH]; simpl; [lia|].
  destruct (Z.eqb (id m) b).
  - destruct (streaming (f m)) eqn:E.
    + rewrite (Hf m E). simpl. lia.
    + destruct (streaming m); simpl; lia.
  - destruct (streaming m); simpl; lia.
Qed.

Lemma patch_open_only (b : Z) (f : Message -> Message) (l : list Message) :
  (forall m, key (f m) = key m) ->
  (forall m, streaming (f m) = true -> streaming m = true) ->
  open_only b l -> open_only b (patch b f l).
Proof.
  intros Hk Hf H m Hin Hs. unfold patch in Hin.
  apply in_map_iff in Hin as [m0 [E Hin]].
  destruct (Z.eqb_spec (id m0) b) as [Hb|Hb]; subst m.
  - pose proof (Hk m0) as K. unfold key in K. congruence.
  - now apply H.
Qed.

Lemma patch_closes (b : Z) (f : Message -> Message) (l : list Message) :
  (forall m, streaming (f m) = false) ->
  open_only b l -> open_count (patch b f l) = 0.
Proof.
  intros Hf H. unfold open_count. induction l as [|m l IH]; [reflexivity|].
  simpl. assert (Hl : open_only b l) by (intros x Hx; apply H; now right).
  destruct (Z.eqb_spec (id m) b) as [Hb|Hb].
  - rewrite Hf. now apply IH.
  - destruct (streaming m) eqn:E; [|now apply IH].
    exfalso. apply Hb. apply H; [now left|exact E].
Qed.

Lemma replay_inv (b : Z) (evs : list ProtocolEvent) (st : State)
  (acc : jsstring) :
  stream_inv b st ->
  let st' := fst (fold_left (invoke (callbacks Number_toString b)) evs (st, acc)) in
  stream_inv b st'
  /\ (existsb terminal evs = true \/ open_count (messages st) = 0 ->
      open_count (messages st') = 0)
  /\ same_cells st st'
  /\ map key (messages st') = map key (messages st).
Proof.
  revert st acc. induction evs as [|e evs IH]; intros st acc Hinv; simpl.
  - repeat split; try assumption; try apply Hinv.
    intros [H|H]; [discriminate|exact H].
  - destruct (converts Number_toString e) eqn:C;
      [|rewrite (invoke_throws b st acc e C);
        destruct e; try discriminate; now apply IH].
    rewrite (invoke_callbacks b st acc e C).
    set (st1 := setMessages (patch b (event_patch Number_toString acc e)) st).
    destruct Hinv as (Hc & Ho & Hh).
    assert (Hle : open_count (messages st1) <= open_count (messages st)).
    { apply patch_open_count, event_patch_streaming. }
    assert (Hinv1 : stream_inv b st1).
    { repeat split.
      - lia.
      - apply patch_open_only; [apply event_patch_key|
                                apply event_patch_streaming|exact Ho].
      - simpl. apply Forall_app. split; [exact Hh|].
        constructor; [|constructor]. simpl in Hle. lia. }
    destruct (IH st1 (event_text Number_toString acc e) Hinv1) as (I1 & I2 & I3 & I4).
    repeat split; try apply I1; try apply I3.
    + intros H. apply I2. destruct H as [H|H].
      * apply orb_true_iff in H as [H|H]; [right|now left].
        simpl. apply patch_closes; [|exact Ho].
        intros m. now apply event_patch_terminal.
      * right. lia.
    + rewrite I4. simpl. apply patch_key. apply event_patch_key.
Qed.

End LedgerFacts.

(** ** Events on the open and on closed messages *)

Section EventFacts.

Variable Number_toString : jsstring -> jsstring.

(** C7. A frame of type [error] dispatched while the bot message [b] is open
    keeps the ledger's length and order, turns every message with the id [b]
    into one with [isStreaming] false and the fixed failure text, whatever
    text had been streamed into it, and leaves every other message as it
    is. *)
Theorem error_event_closes_open_message (b : Z) (st : State)
  (streamedText line : jsstring) (data : value) :
  startsWith (lit "data: ") line = true ->
  JSON.parse (slice line 6 None) = Some data ->
  JSON.get data (lit "type") = Some (JString (lit "error")) ->
  let st' := fst (handle_line (callbacks Number_toString b) (st, streamedText) line) in
  List.length (messages st') = List.length (messages st)
  /\ forall i m,
       nth_error (messages st) i = Some m ->
       nth_error (messages st') i
       = Some (if Z.eqb (id m) b
               then {| id := id m; text := JString stream_failure_text;
                       sender := sender m; sources := sources m;
                       isStreaming := Some false |}
               else m).
Proof.
  intros Hs Hp Ht. unfold handle_line. rewrite Hs, Hp.
  unfold dispatch. rewrite Ht.
  assert (He : exists error, JSON.get data (lit "error") = Some error).
  { destruct data; try discriminate; simpl; eauto. }
  destruct He as [error ->].
  change (JS.eqb (lit "error") (lit "token")) with false.
  change (JS.eqb (lit "error") (lit "sources")) with false.
  change (JS.eqb (lit "error") (lit "error")) with true.
  cbv iota. simpl fst. simpl messages. unfold run_updater. split.
  - apply patch_length.
  - intros i m Hi. rewrite patch_nth_error, Hi. reflexivity.
Qed.

(** C4, amended. Once a message is closed, every later event leaves it in
    its place with its id, its sender and [isStreaming] false, and leaves it
    as it is when the event is dispatched for another id or is a done event;
    an event for its own id is still applied to it: a sources event replaces
    its sources, an error event sets its text to the failure text, a token
    that converts to a string sets its text to the text streamed so far, and
    a token whose conversion throws leaves it as it is. *)
Theorem closed_message_under_later_event (b : Z) (st : State)
  (streamedText : jsstring) (e : ProtocolEvent) (i : nat) (m : Message) :
  nth_error (messages st) i = Some m ->
  isStreaming m = Some false ->
  let st' := fst (invoke (callbacks Number_toString b) (st, streamedText) e) in
  exists m',
    nth_error (messages st') i = Some m'
    /\ id m' = id m /\ sender m' = sender m /\ isStreaming m' = Some false
    /\ (id m <> b \/ e = Done -> m' = m)
    /\ (id m = b ->
        m' = match e with
             | Token token =>
                 match ToString Number_toString token with
                 | Some appended =>
                     with_text (JString (streamedText ++ appended)) m
                 | None => m
                 end
             | Sources srcs => with_sources srcs m
             | Failure _ => with_text (JString stream_failure_text) m
             | Done => m
             end).
Proof.
  intros Hi Hc.
  destruct (converts Number_toString e) eqn:C.
  - rewrite (@invoke_callbacks Number_toString b st streamedText e C). simpl fst. simpl messages.
    rewrite patch_nth_error, Hi. simpl option_map.
    assert (Hm : with_isStreaming false m = m).
    { destruct m; simpl in *. unfold with_isStreaming. simpl. now rewrite Hc. }
    destruct (Z.eqb_spec (id m) b) as [Hb|Hb].
    + exists (event_patch Number_toString streamedText e m).
      split; [reflexivity|].
      split; [now destruct e|].
      split; [now destruct e|].
      split; [destruct e; solve [exact Hc|reflexivity]|].
      split.
      * intros [H|H]; [contradiction|]. subst e. exact Hm.
      * intros _. destruct e as [token| | |]; try reflexivity.
        -- unfold event_patch, event_text.
           unfold converts in C.
           destruct (ToString Number_toString token); [reflexivity|discriminate].
        -- simpl. unfold with_isStreaming, with_text. simpl. now rewrite <- Hc.
        -- exact Hm.
    + exists m. repeat split; try assumption; intros; contradiction.
  - rewrite (@invoke_throws Number_toString b st streamedText e C). simpl fst.
    exists m. repeat split; try assumption.
    intros _. destruct e as [token| | |]; try discriminate.
    unfold converts in C.
    destruct (ToString Number_toString token); [discriminate|reflexivity].
Qed.

End EventFacts.

Lemma error_event_closes_open_message_witness :
  nth_error
    (messages (fst (handle_line (callbacks lexeme_text 8)
                      (streaming_state, lit "The latest")
                      (dq "data: {'type':'error','error':'upstream failed'}"))))
    1
  = Some {| id := 8; text := JString stream_failure_text; sender := bot;
            sources := Some (JArray []); isStreaming := Some false |}.
Proof.
  refine (proj2 (@error_event_closes_open_message lexeme_text 8 streaming_state
                   (lit "The latest")
                   (dq "data: {'type':'error','error':'upstream failed'}")
                   (JObject [(lit "type", JString (lit "error"));
                             (lit "error", JString (lit "upstream failed"))])
                   _ _ _) 1
            {| id := 8; text := JString (lit "The latest"); sender := bot;
               sources := Some (JArray []); isStreaming := Some true |} _);
    vm_compute; reflexivity.
Defined.

Lemma closed_message_under_later_event_witness :
  exists m',
    nth_error
      (messages (fst (invoke (callbacks lexeme_text 8)
                        (setMessages (patch 8 (with_isStreaming false))
                           streaming_state, lit "The latest")
                        (Token (JString (lit " AI news"))))))
      1 = Some m'
    /\ isStreaming m' = Some false
    /\ m' = {| id := 8; text := JString (lit "The latest AI news");
               sender := bot; sources := Some (JArray []);
               isStreaming := Some false |}.
Proof.
  destruct (@closed_message_under_later_event lexeme_text 8
              (setMessages (patch 8 (with_isStreaming false)) streaming_state)
              (lit "The latest") (Token (JString (lit " AI news"))) 1
              {| id := 8; text := JString (lit "The latest"); sender := bot;
                 sources := Some (JArray []); isStreaming := Some false |}
              eq_refl eq_refl)
    as (m' & H1 & _ & _ & H2 & _ & H3).
  exists m'. split; [exact H1|]. split; [exact H2|].
  rewrite H3; reflexivity.
Defined.

(** ** Submissions *)

Section SubmitFacts.

Variable Number_toString : jsstring -> jsstring.

Lemma handleSubmit_rejected (env : Env) (st : State) :
  trim (message st) = [] \/ isLoading st = true -> handleSubmit Number_toString env st = st.
Proof.
  intros [H|H]; unfold ChatInterface.handleSubmit; rewrite H;
    [reflexivity|]. now destruct (trim (message st)).
Qed.

Lemma handleSubmit_streamed (env : Env) (st : State) :
  trim (message st) <> [] -> isLoading st = false -> useStreaming st = true ->
  handleSubmit Number_toString env st
  = setIsLoading false
      (fst (fold_left (invoke (callbacks Number_toString (now_bot env + 1)))
              (calls (stream_transport env)) (stream_begun env st, []))).
Proof.
  intros Ht Hl Hu. unfold ChatInterface.handleSubmit.
  destruct (trim (message st)) as [|c t]; [contradiction|].
  rewrite Hl. cbn [negb]. cbn [useStreaming setIsLoading setMessage setMessages].
  rewrite Hu. unfold handleStreamingResponse. rewrite streamMessage_replay.
  fold (userMessage env st). fold (placeholder env).
  change (setIsLoading true _) with (submitted env st).
  change (fetch _ _) with (stream_begun env st).
  now destruct (fold_left _ _ _) as [st' acc].
Qed.

Lemma replay_keys (b : Z) (evs : list ProtocolEvent) (st : State)
  (acc : jsstring) :
  let st' := fst (fold_left (invoke (callbacks Number_toString b)) evs (st, acc)) in
  map key (messages st') = map key (messages st)
  /\ same_cells st st'.
Proof.
  revert st acc. induction evs as [|e evs IH]; intros st acc; simpl.
  - now repeat split.
  - destruct (converts Number_toString e) eqn:C;
      [|rewrite (@invoke_throws Number_toString b st acc e C); apply IH].
    rewrite (@invoke_callbacks Number_toString b st acc e C).
    destruct (IH (setMessages (patch b (event_patch Number_toString acc e)) st)
                (event_text Number_toString acc e)) as (I1 & I2).
    split; [|exact I2].
    rewrite I1. simpl. apply patch_key, event_patch_key.
Qed.

(** C8. A submission with an empty or blank query, or while a request is in
    flight, leaves the whole state as it is: the ledger and its history, the
    requests issued, the input and the busy flag; and the callbacks of a
    stream in flight act after it as they would have acted without it. *)
Theorem rejected_submit_is_noop (env : Env) (st : State) :
  trim (message st) = [] \/ isLoading st = true ->
  handleSubmit Number_toString env st = st
  /\ messages (handleSubmit Number_toString env st) = messages st
  /\ history (handleSubmit Number_toString env st) = history st
  /\ requests (handleSubmit Number_toString env st) = requests st
  /\ (forall b streamedText chunks,
        read_loop (callbacks Number_toString b) chunks
          (handleSubmit Number_toString env st, streamedText)
        = read_loop (callbacks Number_toString b) chunks (st, streamedText)).
Proof.
  intros H. rewrite (@handleSubmit_rejected env st H). now repeat split.
Qed.

(** C10. [streamMessage] fulfils its promise whatever the transport does,
    and an accepted streamed submission appends exactly a user message and a
    bot message to the ledger and issues one request; when [fetch] rejects
    or the status is not a success, the appended bot message itself ends
    closed with the failure text. *)
Theorem streamed_submission_appends_two (env : Env) (st : State) :
  trim (message st) <> [] -> isLoading st = false -> useStreaming st = true ->
  (forall (S : Type) (cb : Callbacks S) (s : S),
      snd (streamMessage cb (stream_transport env) s) = Fulfilled tt)
  /\ map key (messages (handleSubmit Number_toString env st))
     = map key (messages st) ++ [(now_user env, user); ((now_bot env + 1)%Z, bot)]
  /\ requests (handleSubmit Number_toString env st)
     = requests st ++ [streamMessage_request (message st) 3]
  /\ ((exists message, stream_transport env = StreamFetchRejects message)
      \/ (exists status chunks ending,
             stream_transport env = StreamResponse false status chunks ending) ->
      nth_error (messages (handleSubmit Number_toString env st)) (List.length (messages st) + 1)
      = Some {| id := now_bot env + 1; text := JString stream_failure_text;
                sender := bot; sources := Some (JArray []);
                isStreaming := Some false |}).
Proof.
  intros Ht Hl Hu. split; [|rewrite (@handleSubmit_streamed env st Ht Hl Hu)].
  { intros S cb s. now rewrite streamMessage_replay. }
  destruct (replay_keys (now_bot env + 1)%Z (calls (stream_transport env))
              (stream_begun env st) []) as (K & _ & _ & _ & R).
  split; [|split].
  - cbn [messages setIsLoading]. etransitivity; [exact K|]. simpl.
    rewrite <- app_assoc, !map_app. reflexivity.
  - cbn [requests setIsLoading]. etransitivity; [exact R|]. reflexivity.
  - intros H.
    assert (E : exists error, calls (stream_transport env) = [Failure error]).
    { destruct H as [[m ->]|(status & chunks & ending & ->)]; eexists;
        reflexivity. }
    destruct E as [error ->]. simpl. unfold run_updater.
    rewrite patch_nth_error, <- app_assoc.
    rewrite nth_error_app2 by lia.
    replace (_ + 1 - _) with 1 by lia. simpl.
    now rewrite Z.eqb_refl.
Qed.

End SubmitFacts.

(** ** The non-streaming path *)

Section RegularFacts.

Variable Number_toString : jsstring -> jsstring.

Lemma regular_reply_closed (env : Env) : streaming (regular_reply env) = false.
Proof.
  unfold regular_reply.
  destruct (sendMessage (query_transport env)) as [[]|]; reflexivity.
Qed.

Lemma handleSubmit_regular (env : Env) (st : State) :
  trim (message st) <> [] -> isLoading st = false -> useStreaming st = false ->
  let st' := handleSubmit Number_toString env st in
  messages st' = messages st ++ [userMessage env st; regular_reply env]
  /\ history st'
     = history st ++ [messages st ++ [userMessage env st];
                      messages st ++ [userMessage env st; regular_reply env]]
  /\ requests st' = requests st ++ [sendMessage_request (message st) 3]
  /\ isLoading st' = false.
Proof.
  intros Ht Hl Hu. unfold handleSubmit.
  destruct (trim (message st)) as [|c t]; [contradiction|].
  rewrite Hl. cbn [negb]. cbn [useStreaming setIsLoading setMessage setMessages].
  rewrite Hu. unfold handleRegularResponse, regular_reply.
  fold (userMessage env st).
  destruct (sendMessage (query_transport env)) as [[]|]; simpl;
    rewrite <- ?app_assoc; simpl; repeat split; reflexivity.
Qed.

(** C5, amended. An accepted non-streaming submission appends the user
    message and exactly one closed bot message.  When the request succeeds
    with an object, that message carries the object's [answer] as it was
    returned, not normalized, and its [sources]; when [fetch] rejects, the
    status is not a success, the body is not JSON or is [null], it carries
    the fixed failure text and no sources. *)
Theorem regular_submission_appends_reply (env : Env) (st : State) :
  trim (message st) <> [] -> isLoading st = false -> useStreaming st = false ->
  messages (handleSubmit Number_toString env st)
  = messages st ++ [userMessage env st; regular_reply env]
  /\ isStreaming (regular_reply env) = None
  /\ (forall props,
        sendMessage (query_transport env) = Fulfilled (JObject props) ->
        text (regular_reply env) = JSON.lookup (lit "answer") props
        /\ sources (regular_reply env) = Some (JSON.lookup (lit "sources") props))
  /\ (sendMessage (query_transport env) = Fulfilled JNull
      \/ (exists error, sendMessage (query_transport env) = Rejected error) ->
      regular_reply env
      = {| id := now_error env + 1; text := JString submit_failure_text;
           sender := bot; sources := None; isStreaming := None |}).
Proof.
  intros Ht Hl Hu.
  destruct (@handleSubmit_regular env st Ht Hl Hu) as (H & _).
  split; [exact H|]. unfold regular_reply. split; [|split].
  - destruct (sendMessage (query_transport env)) as [[]|]; reflexivity.
  - intros props ->. now split.
  - intros [->|[error ->]]; reflexivity.
Qed.

End RegularFacts.

(** The claim of C5 fails: the appended message keeps the answer as it was
    returned, which is not its normalized form. *)
Lemma regular_reply_is_not_normalized :
  map text (messages (handleSubmit lexeme_text escaped_env regular_state))
  = [JString (lit "hello"); JString (lit "Hi\n there")]
  /\ cleanMarkdownText (Some (lit "Hi\n there")) <> lit "Hi\n there".
Proof. split; vm_compute; [reflexivity|discriminate]. Qed.

Lemma regular_submission_appends_reply_witness :
  messages (handleSubmit lexeme_text escaped_env regular_state)
  = [ {| id := 1000; text := JString (lit "hello"); sender := user;
         sources := None; isStreaming := None |};
      {| id := 1201; text := JString (lit "Hi\n there"); sender := bot;
         sources := Some (JArray []); isStreaming := None |} ].
Proof.
  refine (proj1 (@regular_submission_appends_reply lexeme_text escaped_env
                   regular_state _ eq_refl eq_refl)).
  vm_compute. discriminate.
Defined.

(** ** Open messages along a session *)

Section SessionFacts.

Variable Number_toString : jsstring -> jsstring.

Lemma open_count_app (l l' : list Message) :
  open_count (l ++ l') = open_count l + open_count l'.
Proof. unfold open_count. now rewrite filter_app, length_app. Qed.

Lemma stream_begun_inv (env : Env) (st : State) :
  at_rest st -> stream_inv (now_bot env + 1) (stream_begun env st).
Proof.
  intros [H0 Hh]. unfold stream_inv, stream_begun, submitted.
  cbn [messages history fetch setMessages setMessage setIsLoading].
  assert (Hu : open_count [userMessage env st] = 0) by reflexivity.
  assert (Hp : open_count [placeholder env] = 1) by reflexivity.
  repeat split.
  - rewrite !open_count_app, H0, Hu, Hp. lia.
  - intros m Hin Hs.
    apply in_app_or in Hin as [Hin|[<-|[]]]; [|reflexivity].
    apply in_app_or in Hin as [Hin|[<-|[]]]; [|discriminate].
    exfalso. unfold open_count in H0.
    assert (Hf : In m (filter streaming (messages st)))
      by (apply filter_In; now split).
    destruct (filter streaming (messages st)); [contradiction|discriminate].
  - rewrite <- app_assoc. apply Forall_app. split; [exact Hh|].
    constructor; [|constructor; [|constructor]];
      rewrite !open_count_app, H0, Hu, ?Hp; lia.
Qed.

(** One action from a state at rest: the history stays good, and the state
    is at rest again when the action's stream closes its message. *)
Lemma step_at_rest (a : Action) (st : State) :
  at_rest st ->
  good_history (step Number_toString st a)
  /\ (closing a = true -> at_rest (step Number_toString st a)).
Proof.
  intros Hr. destruct a as [v|env]; cbn [step closing].
  { destruct Hr as [H0 Hg]. split; [exact Hg|]. intros _. now split. }
  destruct (isLoading st) eqn:Hl.
  { rewrite handleSubmit_rejected by (now right).
    split; [apply Hr|now intros _]. }
  destruct (trim (message st)) as [|c t] eqn:Ht.
  { rewrite handleSubmit_rejected by (now left).
    split; [apply Hr|now intros _]. }
  assert (Ht' : trim (message st) <> []) by (rewrite Ht; discriminate).
  destruct (useStreaming st) eqn:Hu.
  - rewrite (@handleSubmit_streamed Number_toString env st Ht' Hl Hu).
    destruct (@replay_inv Number_toString (now_bot env + 1)
                (calls (stream_transport env)) (stream_begun env st) []
                (stream_begun_inv env Hr)) as ((_ & _ & Hh) & Hz & _).
    split; [exact Hh|]. intros Hc. split; [|exact Hh].
    apply Hz. now left.
  - destruct (@handleSubmit_regular Number_toString env st Ht' Hl Hu)
      as (Hm & Hh & _).
    destruct Hr as [H0 Hg].
    assert (G : good_history (handleSubmit Number_toString env st)).
    { unfold good_history. rewrite Hh. apply Forall_app. split; [exact Hg|].
      constructor; [|constructor; [|constructor]];
        rewrite !open_count_app, H0; unfold open_count;
        simpl; rewrite ?regular_reply_closed; simpl; lia. }
    split; [exact G|]. intros _. split; [|exact G].
    rewrite Hm, open_count_app, H0. unfold open_count. simpl.
    now rewrite regular_reply_closed.
Qed.

Lemma run_at_rest (actions : list Action) (st : State) :
  at_rest st ->
  Forall (fun a => closing a = true) actions ->
  at_rest (run Number_toString actions st).
Proof.
  intros Hr H. revert st Hr. induction H as [|a actions Ha _ IH]; intros st Hr;
    [exact Hr|].
  simpl. apply IH. now apply step_at_rest.
Qed.

(** C2, amended. Along every session in which each submission but the last
    has a stream that invokes [onError] or [onDone] (a terminal frame, or a
    transport failure), at most one message is open at every point of the
    ledger's history, whatever the last submission's stream does. *)
Theorem at_most_one_open_while_streams_close (actions : list Action)
  (last : Action) :
  Forall (fun a => closing a = true) actions ->
  Forall (fun ledger => open_count ledger <= 1)
    (history (run Number_toString (actions ++ [last]) initial)).
Proof.
  intros H. unfold run. rewrite fold_left_app. cbn [fold_left].
  assert (Hr : at_rest (run Number_toString actions initial)).
  { apply run_at_rest; [|exact H]. split; [reflexivity|].
    constructor; [|constructor]. unfold open_count. simpl. lia. }
  exact (proj1 (@step_at_rest last _ Hr)).
Qed.

End SessionFacts.

(** The claim of C2 fails: after a stream that ended with no terminal frame,
    the next accepted submission opens a second message. *)
Lemma two_open_messages :
  ~ open_count
      (messages
         (run lexeme_text
            [Typing (lit "first"); Submit (cut_env 1000);
             Typing (lit "second"); Submit (cut_env 2000)] initial)) <= 1.
Proof. vm_compute. lia. Qed.

Lemma at_most_one_open_while_streams_close_witness :
  Forall (fun ledger => open_count ledger <= 1)
    (history
       (run lexeme_text
          ([Typing (lit "latest AI news"); Submit (done_env 1000);
            Typing (lit "and then?")] ++ [Submit (cut_env 2000)]) initial)).
Proof.
  apply at_most_one_open_while_streams_close.
  repeat constructor.
Defined.

Example scenario_done :
  messages (run lexeme_text
              [Typing (lit "latest AI news"); Submit (done_env 1000)] initial)
  = [ {| id := 1000; text := JString (lit "latest AI news"); sender := user;
         sources := None; isStreaming := None |};
      {| id := 1001; text := JString (lit "The latest"); sender := bot;
         sources := Some (JArray [JObject [(lit "title", JString (lit "X"));
                                           (lit "url", JString (lit "http://x"))]]);
         isStreaming := Some false |} ].
Proof. vm_compute. reflexivity. Qed.

(** The claim of C4 fails: the ledger after the done frame holds the bot
    message closed with no sources, and the ledger after the sources frame
    that arrives next holds it closed with the sources of that frame. *)
Lemma closed_message_is_modified :
  map (map (fun m => (id m, isStreaming m, text m, sources m)))
    (skipn 4 (history (run lexeme_text
                         [Typing (lit "q"); Submit late_sources_env] initial)))
  = [ [ (1000%Z, None, JString (lit "q"), None);
        (1001%Z, Some false, JString (lit "Hi"), Some (JArray [])) ];
      [ (1000%Z, None, JString (lit "q"), None);
        (1001%Z, Some false, JString (lit "Hi"),
         Some (JArray [JObject [(lit "title", JString (lit "X"));
                                (lit "url", JString (lit "http://x"))]])) ] ].
Proof. vm_compute. reflexivity. Qed.

Lemma rejected_submit_is_noop_witness :
  handleSubmit lexeme_text (done_env 3000) streaming_state = streaming_state
  /\ handleSubmit lexeme_text (done_env 3000)
       (setMessage (lit "   ") initial) = setMessage (lit "   ") initial.
Proof.
  split.
  - apply rejected_submit_is_noop. right. reflexivity.
  - apply rejected_submit_is_noop. left. reflexivity.
Defined.

Lemma streamed_submission_appends_two_witness :
  map key (messages (handleSubmit lexeme_text unreachable_env
                       (setMessage (lit "latest AI news") initial)))
  = [(1000%Z, user); (1001%Z, bot)]
  /\ nth_error (messages (handleSubmit lexeme_text unreachable_env
                            (setMessage (lit "latest AI news") initial))) 1
     = Some {| id := 1001; text := JString stream_failure_text; sender := bot;
               sources := Some (JArray []); isStreaming := Some false |}.
Proof.
  destruct (@streamed_submission_appends_two lexeme_text unreachable_env
              (setMessage (lit "latest AI news") initial))
    as (_ & K & _ & F).
  - vm_compute. discriminate.
  - reflexivity.
  - reflexivity.
  - split; [exact K|]. apply F. left. now exists (lit "Failed to fetch").
Defined.

(** ** The scenarios of the specification, run *)

Example scenario_tokens :
  map text
    (messages (fst (fold_left (invoke (callbacks lexeme_text 8))
                      [Token (JString (lit "Hel")); Token (JString (lit "lo "));
                       Token (JString (lit "world"))]
                      (streaming_state, []))))
  = [JString (lit "latest AI news"); JString (lit "Hello world")].
Proof. vm_compute. reflexivity. Qed.

Example scenario_cut :
  map (fun m => (isStreaming m, text m))
    (messages (run lexeme_text [Typing (lit "q"); Submit (cut_env 1000)] initial))
  = [(None, JString (lit "q")); (Some true, JString (lit "partial"))].
Proof. vm_compute. reflexivity. Qed.

Example scenario_blank :
  run lexeme_text [Typing (lit "   "); Submit (done_env 1000)] initial
  = setMessage (lit "   ") initial.
Proof. vm_compute. reflexivity. Qed.

Example decode_ex1 :
  decode [dq "data: {'type':'token','content':'Hi'}" ++ [LF; 13%N; LF]
            ++ dq ": keep-alive" ++ [LF]
            ++ dq "data: {'type':'later','x':1}" ++ [LF]
            ++ dq "data: null" ++ [LF]
            ++ dq "data: {'type':'done'}" ++ [LF; LF]]
  = [Token (JString (lit "Hi")); Done].
Proof. vm_compute. reflexivity. Qed.

Example parse_ex1 :
  JSON.parse (dq " [1, -2.5e+3, true, null, {'a': [[]], 'a': {'b':'A\n'}} ] ")
  = Some (JArray [JNumber (lit "1"); JNumber (lit "-2.5e+3"); JBool true; JNull;
                  JObject [(lit "a", JArray [JArray []]);
                           (lit "a", JObject [(lit "b", JString [65; LF]%N)])]]).
Proof. vm_compute. reflexivity. Qed.

Example parse_ex2 :
  map JSON.parse
    [dq "{'type':'to"; dq "01"; dq "{'a':1,}"; dq "'a"; dq "nul"; dq "";
     dq "1 2"; dq "[1"; dq "'\x'"; dq "1."; dq "-"; dq "[1,]"; dq "{'a'}"]
  = repeat None 13.
Proof. vm_compute. reflexivity. Qed.

(** * Further properties of the transport client *)

Section DecoderComposition.

Lemma handle_lines_recorder (lines : list jsstring) (log : list ProtocolEvent) :
  fold_left (handle_line recorder) lines log
  = log ++ fold_left (handle_line recorder) lines [].
Proof.
  revert log. induction lines as [|line lines IH]; intros log; simpl.
  - now rewrite app_nil_r.
  - rewrite IH, (IH (handle_line recorder [] line)), handle_line_recorder.
    now rewrite app_assoc.
Qed.

Lemma read_loop_recorder (chunks : list jsstring) (log : list ProtocolEvent) :
  read_loop recorder chunks log = log ++ decode chunks.
Proof.
  unfold decode. revert log.
  induction chunks as [|c chunks IH]; intros log.
  - simpl. now rewrite app_nil_r.
  - rewrite !read_loop_cons, IH, (IH (handle_chunk recorder [] c)).
    unfold handle_chunk. rewrite handle_lines_recorder. now rewrite app_assoc.
Qed.

(** X1. The decoder handles chunk after chunk and, within a chunk, line after
    line: the events of a sequence of chunks are the events of its parts one
    after the other, and so are the events of a chunk cut at a line
    terminator. *)
Theorem decode_app (chunks1 chunks2 : list jsstring) (a b : jsstring) :
  decode (chunks1 ++ chunks2) = decode chunks1 ++ decode chunks2
  /\ decode [a ++ LF :: b] = decode [a] ++ decode [b].
Proof.
  split.
  - unfold decode at 1. rewrite read_loop_app, read_loop_recorder.
    reflexivity.
  - unfold decode, read_loop. cbn [fold_left].
    rewrite handle_chunk_app. unfold handle_chunk at 1.
    now rewrite handle_lines_recorder.
Qed.

Lemma dispatch_recorder_length (data : value) (evs : list ProtocolEvent) :
  dispatch recorder data [] = Some evs -> List.length evs <= 1.
Proof.
  unfold dispatch.
  repeat match goal with
         | |- context [match ?x with _ => _ end] => destruct x
         end; intros H; try discriminate H; injection H as <-; simpl; lia.
Qed.

Lemma handle_line_recorder_length (line : jsstring) :
  List.length (handle_line recorder [] line)
  <= if startsWith (lit "data: ") line then 1 else 0.
Proof.
  unfold handle_line. destruct (startsWith _ line); [|simpl; lia].
  destruct (JSON.parse _) as [data|]; [|simpl; lia].
  destruct (dispatch recorder data []) as [evs|] eqn:E; [|simpl; lia].
  now apply dispatch_recorder_length in E.
Qed.

Lemma handle_lines_recorder_length (lines : list jsstring) :
  List.length (fold_left (handle_line recorder) lines [])
  <= List.length (filter (startsWith (lit "data: ")) lines).
Proof.
  induction lines as [|line lines IH]; [simpl; lia|].
  cbn [fold_left]. rewrite handle_lines_recorder, length_app.
  pose proof (handle_line_recorder_length line) as H.
  cbn [filter]. destruct (startsWith _ line); simpl in *; lia.
Qed.

(** X2. The decoder dispatches at most one event for each line that starts
    with [data: ], and none for any other line: a stream never yields more
    events than it has such lines. *)
Theorem decode_length_le (chunks : list jsstring) :
  List.length (decode chunks)
  <= List.length (filter (startsWith (lit "data: "))
                    (flat_map (split LF) chunks)).
Proof.
  induction chunks as [|c chunks IH]; [simpl; lia|].
  change (c :: chunks) with ([c] ++ chunks).
  rewrite (proj1 (decode_app [c] chunks [] [])), length_app.
  cbn [flat_map app]. rewrite filter_app, length_app.
  pose proof (handle_lines_recorder_length (split LF c)) as H.
  unfold decode at 1. unfold read_loop. cbn [fold_left].
  unfold handle_chunk. lia.
Qed.

(** X3. [streamMessage] invokes the callbacks in the order of the frames and
    then fulfils its promise.  A rejected [fetch] and a non-success status
    give a single [onError] call and nothing of the body is dispatched; a
    failed read gives one [onError] call after the events of the chunks read
    before it; a stream that ends gives the events of its chunks and no
    [onError] of the transport. *)
Theorem streamMessage_calls (S : Type) (cb : Callbacks S)
  (t : StreamTransport) (st : S) :
  streamMessage cb t st = (fold_left (invoke cb) (calls t) st, Fulfilled tt)
  /\ calls t
     = match t with
       | StreamFetchRejects message => [Failure (JString message)]
       | StreamResponse false status _ _ =>
           [Failure (JString (lit "HTTP error! status: " ++ decimal status))]
       | StreamResponse true _ chunks EndOfStream => decode chunks
       | StreamResponse true _ chunks (ReadRejects message) =>
           decode chunks ++ [Failure (JString message)]
       end.
Proof.
  split; [apply streamMessage_replay|].
  destruct t as [message|[|] status chunks [|message]]; reflexivity.
Qed.

End DecoderComposition.

(** * Further properties of the chat component *)

Section StreamFacts.

Variable Number_toString : jsstring -> jsstring.

Lemma event_text_app (acc : jsstring) (e : ProtocolEvent) :
  event_text Number_toString acc e = acc ++ event_text Number_toString [] e.
Proof.
  destruct e as [token| | |]; simpl; try (now rewrite app_nil_r).
  destruct (ToString Number_toString token); [reflexivity|now rewrite app_nil_r].
Qed.

Lemma invoke_snd (b : Z) (st : State) (acc : jsstring) (e : ProtocolEvent) :
  snd (invoke (callbacks Number_toString b) (st, acc) e)
  = event_text Number_toString acc e.
Proof.
  destruct (converts Number_toString e) eqn:C.
  - now rewrite (@invoke_callbacks Number_toString b st acc e C).
  - rewrite (@invoke_throws Number_toString b st acc e C).
    now rewrite (@event_text_throws Number_toString acc e C).
Qed.

Lemma replay_streamedText (b : Z) (evs : list ProtocolEvent) (st : State)
  (acc : jsstring) :
  snd (fold_left (invoke (callbacks Number_toString b)) evs (st, acc))
  = acc ++ token_text Number_toString evs.
Proof.
  revert st acc. induction evs as [|e evs IH]; intros st acc.
  - simpl. now rewrite app_nil_r.
  - cbn [fold_left].
    destruct (invoke (callbacks Number_toString b) (st, acc) e) as [st1 acc1] eqn:E.
    rewrite IH. pose proof (invoke_snd b st acc e) as H. rewrite E in H.
    simpl in H. subst acc1. rewrite event_text_app.
    unfold token_text. cbn [map List.concat]. now rewrite app_assoc.
Qed.

(** A message stays where it is, with its id, through the events. *)
Lemma replay_nth_error (b : Z) (evs : list ProtocolEvent) (st : State)
  (acc : jsstring) (i : nat) (m : Message) :
  nth_error (messages st) i = Some m ->
  exists m',
    nth_error
      (messages (fst (fold_left (invoke (callbacks Number_toString b)) evs
                        (st, acc)))) i = Some m'
    /\ id m' = id m
    /\ (Forall (fun e => sets_text e = false) evs -> text m' = text m)
    /\ (id m <> b -> m' = m).
Proof.
  revert st acc m. induction evs as [|e evs IH]; intros st acc m Hi.
  - exists m. now repeat split.
  - cbn [fold_left].
    destruct (converts Number_toString e) eqn:C.
    2:{ rewrite (@invoke_throws Number_toString b st acc e C).
        destruct (IH st acc m Hi) as (m' & Hn & Hi' & Ht & Ho).
        exists m'. repeat split; try assumption.
        intros HF. inversion HF; subst. now apply Ht. }
    rewrite (@invoke_callbacks Number_toString b st acc e C).
    set (m1 := if Z.eqb (id m) b
               then event_patch Number_toString acc e m else m).
    assert (H1 : nth_error
                   (messages (setMessages
                                (patch b (event_patch Number_toString acc e)) st))
                   i = Some m1).
    { simpl. now rewrite patch_nth_error, Hi. }
    assert (Hid : id m1 = id m).
    { unfold m1. destruct (Z.eqb (id m) b); [|reflexivity]. now destruct e. }
    destruct (IH _ (event_text Number_toString acc e) m1 H1)
      as (m' & Hn & Hi' & Ht & Ho).
    exists m'. split; [exact Hn|]. split; [congruence|]. split.
    + intros HF. inversion HF as [|e0 evs0 He Hevs]; subst.
      rewrite (Ht Hevs). unfold m1.
      destruct (Z.eqb (id m) b); [|reflexivity].
      destruct e; try discriminate He; reflexivity.
    + intros Hb. rewrite Ho by congruence. unfold m1.
      destruct (Z.eqb_spec (id m) b); [contradiction|reflexivity].
Qed.

(** X4. While a stream runs, [streamedText] only grows: it is the
    concatenation of the tokens received that convert to a string, in order,
    whatever other events came between them; a token whose conversion throws
    is as if it had not been sent; and after a token that converts, followed
    only by sources and done events, every message with the bot message's id
    shows exactly that concatenation, so a token after an error event brings
    back all the text the error had replaced. *)
Theorem streamed_text_accumulates (b : Z) (st : State) (acc : jsstring)
  (pre post : list ProtocolEvent) (token : value) (appended : jsstring)
  (i : nat) (m : Message) :
  nth_error (messages st) i = Some m ->
  id m = b ->
  ToString Number_toString token = Some appended ->
  Forall (fun e => sets_text e = false) post ->
  let r := fold_left (invoke (callbacks Number_toString b))
             (pre ++ Token token :: post) (st, acc) in
  snd r = acc ++ token_text Number_toString pre ++ appended
          ++ token_text Number_toString post
  /\ (exists m',
        nth_error (messages (fst r)) i = Some m'
        /\ text m' = JString (acc ++ token_text Number_toString pre ++ appended))
  /\ (forall thrown evs1 evs2,
        ToString Number_toString thrown = None ->
        fold_left (invoke (callbacks Number_toString b))
          (evs1 ++ Token thrown :: evs2) (st, acc)
        = fold_left (invoke (callbacks Number_toString b))
            (evs1 ++ evs2) (st, acc)).
Proof.
  intros Hi Hb Hs Hpost. cbv zeta. split; [|split].
  - rewrite replay_streamedText. unfold token_text.
    rewrite map_app, concat_app. cbn [map List.concat event_text].
    rewrite Hs. reflexivity.
  - rewrite fold_left_app. cbn [fold_left].
    destruct (fold_left (invoke (callbacks Number_toString b)) pre (st, acc))
      as [st1 acc1] eqn:E1.
    assert (Hacc : acc1 = acc ++ token_text Number_toString pre).
    { rewrite <- (replay_streamedText b pre st acc), E1. reflexivity. }
    destruct (@replay_nth_error b pre st acc i m Hi) as (m1 & H1 & Hid1 & _).
    rewrite E1 in H1. simpl in H1.
    assert (C : converts Number_toString (Token token) = true)
      by (unfold converts; now rewrite Hs).
    rewrite (@invoke_callbacks Number_toString b st1 acc1 (Token token) C).
    assert (H2 : nth_error
                   (messages
                      (setMessages
                         (patch b (event_patch Number_toString acc1
                                     (Token token))) st1)) i
                 = Some (with_text (JString (acc1 ++ appended)) m1)).
    { simpl. rewrite patch_nth_error, H1, Hs. simpl.
      replace (id m1 =? b)%Z with true; [reflexivity|].
      symmetry. apply Z.eqb_eq. congruence. }
    destruct (@replay_nth_error b post _
                (event_text Number_toString acc1 (Token token)) i _ H2)
      as (m' & H3 & _ & Ht & _).
    exists m'. split; [exact H3|].
    rewrite (Ht Hpost). simpl. now rewrite Hacc, app_assoc.
  - intros thrown evs1 evs2 Hn. rewrite !fold_left_app. cbn [fold_left].
    destruct (fold_left (invoke (callbacks Number_toString b)) evs1 (st, acc))
      as [st1 acc1].
    assert (C : converts Number_toString (Token thrown) = false)
      by (unfold converts; now rewrite Hn).
    now rewrite (@invoke_throws Number_toString b st1 acc1 (Token thrown) C).
Qed.

(** X5. A submission, whatever its outcome, leaves every message already in
    the ledger in its place and as it was, except, when the answer is
    streamed, those whose id is the new bot message's. *)
Theorem submit_keeps_earlier_messages (env : Env) (st : State) (i : nat)
  (m : Message) :
  nth_error (messages st) i = Some m ->
  (useStreaming st = true -> id m <> (now_bot env + 1)%Z) ->
  nth_error (messages (handleSubmit Number_toString env st)) i = Some m.
Proof.
  intros Hi Hid.
  assert (Hlt : i < List.length (messages st))
    by (apply nth_error_Some; congruence).
  destruct (isLoading st) eqn:Hl;
    [rewrite handleSubmit_rejected by (now right); exact Hi|].
  destruct (trim (message st)) as [|c t] eqn:Ht;
    [rewrite handleSubmit_rejected by (now left); exact Hi|].
  assert (Ht' : trim (message st) <> []) by (rewrite Ht; discriminate).
  destruct (useStreaming st) eqn:Hu.
  - rewrite (@handleSubmit_streamed Number_toString env st Ht' Hl Hu).
    cbn [messages setIsLoading].
    assert (H0 : nth_error (messages (stream_begun env st)) i = Some m).
    { simpl. rewrite !nth_error_app1; [exact Hi|exact Hlt|].
      rewrite length_app. lia. }
    destruct (@replay_nth_error (now_bot env + 1)
                (calls (stream_transport env)) _ [] i m H0)
      as (m' & H1 & _ & _ & Ho).
    etransitivity; [exact H1|]. f_equal. apply Ho. now apply Hid.
  - destruct (@handleSubmit_regular Number_toString env st Ht' Hl Hu)
      as (Hm & _).
    rewrite Hm, nth_error_app1; assumption.
Qed.

(** X6. An accepted submission clears the input and ends with the busy flag
    cleared, in either mode and whatever the transport does; the user message
    it appends carries the input exactly as typed, surrounding white space
    included, and so does the one request it issues, with [max_sources] 3.
    (When the answer is streamed this needs the user message's id to differ
    from the bot message's.) *)
Theorem accepted_submit_effects (env : Env) (st : State) :
  trim (message st) <> [] -> isLoading st = false ->
  (useStreaming st = true -> now_user env <> (now_bot env + 1)%Z) ->
  let st' := handleSubmit Number_toString env st in
  message st' = [] /\ isLoading st' = false
  /\ useStreaming st' = useStreaming st
  /\ nth_error (messages st') (List.length (messages st))
     = Some {| id := now_user env; text := JString (message st);
               sender := user; sources := None; isStreaming := None |}
  /\ requests st'
     = requests st
       ++ [if useStreaming st then streamMessage_request (message st) 3
           else sendMessage_request (message st) 3].
Proof.
  intros Ht Hl Hid. cbv zeta. destruct (useStreaming st) eqn:Hu.
  - rewrite (@handleSubmit_streamed Number_toString env st Ht Hl Hu).
    destruct (replay_keys Number_toString (now_bot env + 1)%Z
                (calls (stream_transport env)) (stream_begun env st) [])
      as (_ & Hm & _ & Hs & Hr).
    cbn [message isLoading useStreaming messages requests setIsLoading].
    assert (H0 : nth_error (messages (stream_begun env st))
                   (List.length (messages st)) = Some (userMessage env st)).
    { simpl. rewrite nth_error_app1 by (rewrite length_app; simpl; lia).
      rewrite nth_error_app2 by lia. now rewrite Nat.sub_diag. }
    destruct (@replay_nth_error (now_bot env + 1)
                (calls (stream_transport env)) _ [] _ _ H0)
      as (m' & H1 & _ & _ & Ho).
    repeat split.
    + etransitivity; [exact Hm|reflexivity].
    + etransitivity; [exact Hs|]. simpl. exact Hu.
    + etransitivity; [exact H1|]. f_equal. apply Ho. simpl. now apply Hid.
    + etransitivity; [exact Hr|reflexivity].
  - unfold handleSubmit.
    destruct (trim (message st)) as [|c t]; [contradiction|].
    rewrite Hl. cbn [negb useStreaming setIsLoading setMessage setMessages].
    rewrite Hu. unfold handleRegularResponse.
    destruct (sendMessage (query_transport env)) as [[]|]; simpl;
      repeat split; try reflexivity; try assumption;
      rewrite <- ?app_assoc; rewrite nth_error_app2 by lia;
      now rewrite Nat.sub_diag.
Qed.

End StreamFacts.

Lemma streamed_text_accumulates_witness :
  exists m',
    nth_error
      (messages
         (fst (fold_left (invoke (callbacks lexeme_text 8))
                 ([Token (JString (lit "Hel"));
                   Token (JObject [(lit "toString", JNumber (lit "1"))]);
                   Failure JNull]
                  ++ Token (JString (lit "lo")) :: [Done])
                 (streaming_state, [])))) 1 = Some m'
    /\ text m' = JString (lit "Hello").
Proof.
  destruct (@streamed_text_accumulates lexeme_text 8 streaming_state []
              [Token (JString (lit "Hel"));
               Token (JObject [(lit "toString", JNumber (lit "1"))]);
               Failure JNull] [Done]
              (JString (lit "lo")) (lit "lo") 1
              {| id := 8; text := JString (lit "The latest"); sender := bot;
                 sources := Some (JArray []); isStreaming := Some true |}
              eq_refl eq_refl eq_refl)
    as (_ & (m' & H1 & H2) & _).
  - repeat constructor.
  - exists m'. split; [exact H1|exact H2].
Defined.

Lemma submit_keeps_earlier_messages_witness :
  nth_error
    (messages
       (handleSubmit lexeme_text (done_env 2000)
          (setMessage (lit "and then?")
             (run lexeme_text
                [Typing (lit "latest AI news"); Submit (done_env 1000)]
                initial)))) 1
  = Some {| id := 1001; text := JString (lit "The latest"); sender := bot;
            sources :=
              Some (JArray [JObject [(lit "title", JString (lit "X"));
                                     (lit "url", JString (lit "http://x"))]]);
            isStreaming := Some false |}.
Proof.
  apply submit_keeps_earlier_messages.
  - vm_compute. reflexivity.
  - intros _. vm_compute. discriminate.
Defined.

Lemma accepted_submit_effects_witness :
  nth_error
    (messages (handleSubmit lexeme_text (done_env 1000)
                 (setMessage (lit "  hi ") initial))) 0
  = Some {| id := 1000; text := JString (lit "  hi "); sender := user;
            sources := None; isStreaming := None |}
  /\ requests (handleSubmit lexeme_text (done_env 1000)
                 (setMessage (lit "  hi ") initial))
     = [streamMessage_request (lit "  hi ") 3].
Proof.
  destruct (@accepted_submit_effects lexeme_text (done_env 1000)
              (setMessage (lit "  hi ") initial))
    as (_ & _ & _ & H1 & H2).
  - vm_compute. discriminate.
  - reflexivity.
  - intros _. vm_compute. discriminate.
  - split; [exact H1|exact H2].
Defined.

(** ** Sessions from the first render *)

Section SessionInvariants.

Variable Number_toString : jsstring -> jsstring.

Lemma append_only_snoc (h : list (list Message)) (l l' : list Message) :
  append_only (h ++ [l]) ->
  (exists suffix, map key l' = map key l ++ suffix) ->
  append_only ((h ++ [l]) ++ [l']).
Proof.
  intros H Hl. induction h as [|l1 h IH].
  - simpl. auto.
  - change ((l1 :: h) ++ [l]) with (l1 :: (h ++ [l])) in *.
    change ((l1 :: h ++ [l]) ++ [l']) with (l1 :: ((h ++ [l]) ++ [l'])).
    cbn [append_only] in H |- *.
    destruct (h ++ [l]) as [|l2 rest] eqn:E.
    + now destruct h.
    + cbn [app]. destruct H as [H1 H2]. split; [exact H1|].
      now apply IH.
Qed.

(** What every state of a session keeps. *)
Definition session_inv (st : State) : Prop :=
  isLoading st = false /\ useStreaming st = true
  /\ Forall stream_request (requests st)
  /\ map sender (messages st)
     = flat_map (fun _ => [user; bot]) (requests st)
  /\ (exists h, history st = h ++ [messages st])
  /\ append_only (history st)
  /\ Forall (fun ledger => forallb is_string ledger = true) (history st).

(** What the callbacks keep of it while a stream runs. *)
Definition stream_session_inv (st : State) : Prop :=
  (exists h, history st = h ++ [messages st])
  /\ append_only (history st)
  /\ Forall (fun ledger => forallb is_string ledger = true) (history st).

Lemma event_patch_is_string (acc : jsstring) (e : ProtocolEvent) (m : Message) :
  is_string m = true ->
  is_string (event_patch Number_toString acc e m) = true.
Proof. destruct e; unfold is_string; simpl; auto. Qed.

Lemma patch_is_string (b : Z) (f : Message -> Message) (l : list Message) :
  (forall m, is_string m = true -> is_string (f m) = true) ->
  forallb is_string l = true -> forallb is_string (patch b f l) = true.
Proof.
  intros Hf. induction l as [|m l IH]; [reflexivity|]. simpl.
  intros H. apply andb_true_iff in H as [Hm Hl].
  rewrite (IH Hl), andb_true_r.
  destruct (Z.eqb (id m) b); [now apply Hf|exact Hm].
Qed.

Lemma setMessages_session (f : list Message -> list Message) (st : State) :
  stream_session_inv st ->
  (exists suffix, map key (f (messages st)) = map key (messages st) ++ suffix) ->
  forallb is_string (f (messages st)) = true ->
  stream_session_inv (setMessages f st).
Proof.
  intros ([h Hh] & Ha & Hs) Hk Hf. unfold stream_session_inv. simpl.
  split; [now exists (history st)|]. split.
  - rewrite Hh in *. now apply append_only_snoc.
  - apply Forall_app. split; [exact Hs|]. now constructor.
Qed.

Lemma history_last_strings (st : State) :
  stream_session_inv st -> forallb is_string (messages st) = true.
Proof.
  intros ([h Hh] & _ & Hs). rewrite Hh in Hs.
  apply Forall_app in Hs as [_ Hs]. now inversion Hs.
Qed.

Lemma replay_session (b : Z) (evs : list ProtocolEvent) (st : State)
  (acc : jsstring) :
  stream_session_inv st ->
  stream_session_inv
    (fst (fold_left (invoke (callbacks Number_toString b)) evs (st, acc))).
Proof.
  revert st acc. induction evs as [|e evs IH]; intros st acc H; [exact H|].
  cbn [fold_left].
  destruct (converts Number_toString e) eqn:C;
    [|rewrite (@invoke_throws Number_toString b st acc e C); now apply IH].
  rewrite (@invoke_callbacks Number_toString b st acc e C). apply IH.
  apply setMessages_session; [exact H| |].
  - exists []. rewrite app_nil_r. apply patch_key, event_patch_key.
  - apply patch_is_string; [apply event_patch_is_string|].
    now apply history_last_strings.
Qed.

Lemma forallb_is_string_app (l l' : list Message) :
  forallb is_string (l ++ l') = forallb is_string l && forallb is_string l'.
Proof. apply forallb_app. Qed.

Lemma step_session (a : Action) (st : State) :
  session_inv st -> session_inv (step Number_toString st a).
Proof.
  intros (Hl & Hu & Hr & Hs & Hh & Ha & Hst).
  destruct a as [v|env]; cbn [step].
  { unfold session_inv. simpl. auto 10. }
  destruct (trim (message st)) as [|c t] eqn:Ht.
  { rewrite handleSubmit_rejected by (now left). unfold session_inv. auto 10. }
  assert (Ht' : trim (message st) <> []) by (rewrite Ht; discriminate).
  rewrite (@handleSubmit_streamed Number_toString env st Ht' Hl Hu).
  assert (H0 : stream_session_inv st) by (unfold stream_session_inv; auto).
  assert (Hstr : forallb is_string (messages st) = true)
    by now apply history_last_strings.
  assert (H1 : stream_session_inv (stream_begun env st)).
  { unfold stream_begun, submitted.
    assert (H2 : stream_session_inv
                   (setMessages (fun prev => prev ++ [userMessage env st]) st)).
    { apply setMessages_session; [exact H0| |].
      - eexists. now rewrite map_app.
      - now rewrite forallb_is_string_app, Hstr. }
    assert (H3 : stream_session_inv
                   (setMessages (fun prev => prev ++ [placeholder env])
                      (setIsLoading true
                         (setMessage []
                            (setMessages
                               (fun prev => prev ++ [userMessage env st]) st))))).
    { apply setMessages_session; [exact H2| |].
      - eexists. now rewrite map_app.
      - cbn [messages setIsLoading setMessage].
        rewrite forallb_is_string_app.
        now rewrite (history_last_strings H2). }
    exact H3. }
  pose proof (@replay_session (now_bot env + 1)
                (calls (stream_transport env)) _ [] H1) as (Hh2 & Ha2 & Hs2).
  destruct (replay_keys Number_toString (now_bot env + 1)%Z
              (calls (stream_transport env)) (stream_begun env st) [])
    as (Hk & _ & _ & Hu2 & Hr2).
  unfold session_inv.
  cbn [isLoading useStreaming requests messages history setIsLoading].
  split; [reflexivity|]. split; [etransitivity; [exact Hu2|exact Hu]|].
  split; [|split; [|split; [exact Hh2|split; [exact Ha2|exact Hs2]]]].
  - replace (requests _) with (requests (stream_begun env st)) by (symmetry; exact Hr2).
    simpl. apply Forall_app. split; [exact Hr|].
    constructor; [|constructor]. now repeat split.
  - replace (requests _) with (requests (stream_begun env st)) by (symmetry; exact Hr2).
    assert (Hsend : forall l : list Message, map sender l = map snd (map key l)).
    { intros l. rewrite map_map. reflexivity. }
    rewrite Hsend.
    replace (map key _) with (map key (messages (stream_begun env st)))
      by (symmetry; exact Hk).
    rewrite <- Hsend. simpl. rewrite <- app_assoc, map_app, Hs.
    rewrite flat_map_app. reflexivity.
Qed.

Lemma run_session (actions : list Action) (st : State) :
  session_inv st -> session_inv (run Number_toString actions st).
Proof.
  revert st. induction actions as [|a actions IH]; intros st H; [exact H|].
  simpl. apply IH. now apply step_session.
Qed.

Lemma initial_session : session_inv initial.
Proof.
  unfold session_inv. simpl. repeat split; try constructor; try reflexivity.
  - now exists [].
  - constructor.
Qed.

Lemma pairs_length (rs : list Request) :
  List.length (flat_map (fun _ : Request => [user; bot]) rs)
  = 2 * List.length rs.
Proof. induction rs as [|r rs IH]; simpl in *; lia. Qed.

(** X7. From the first render, after any typing and submissions, nothing is
    in flight any more and the mode is still streaming; every request that
    was issued went to [/api/stream] with [max_sources] 3 and [stream] true:
    the component never calls [/api/query]. *)
Theorem session_only_streams (actions : list Action) :
  let st := run Number_toString actions initial in
  isLoading st = false /\ useStreaming st = true
  /\ Forall (fun r => url r = lit "http://localhost:8000/api/stream"
                      /\ max_sources r = 3%Z /\ stream r = true)
       (requests st).
Proof.
  destruct (run_session actions initial_session) as (H1 & H2 & H3 & _).
  cbv zeta. auto.
Qed.

(** X8. From the first render, the ledger holds one user message followed by
    one bot message for each request issued, in that order, and nothing
    else: no submission ever leaves a user message without its bot
    message, or adds a separate error message. *)
Theorem session_ledger_pairs (actions : list Action) :
  let st := run Number_toString actions initial in
  map sender (messages st) = flat_map (fun _ => [user; bot]) (requests st)
  /\ List.length (messages st) = 2 * List.length (requests st).
Proof.
  destruct (run_session actions initial_session) as (_ & _ & _ & H & _).
  cbv zeta. split; [exact H|].
  rewrite <- (length_map sender), H. apply pairs_length.
Qed.

(** X9. From the first render, the ledger only grows: each value [messages]
    takes keeps the messages of the value before it in their places with
    their ids and senders, and adds messages only at the end; the last
    value of the history is the ledger itself. *)
Theorem session_append_only (actions : list Action) :
  let st := run Number_toString actions initial in
  append_only (history st)
  /\ exists h, history st = h ++ [messages st].
Proof.
  destruct (run_session actions initial_session)
    as (_ & _ & _ & _ & H1 & H2 & _).
  cbv zeta. auto.
Qed.

(** X10. From the first render, the text of every message is a string at
    every point of the history: the input as typed, the empty text of a
    placeholder, the text streamed so far or the failure text, and never the
    value a frame carried as such, so that [msg.text.trim()] is always
    called on a string. *)
Theorem session_texts_are_strings (actions : list Action) :
  let st := run Number_toString actions initial in
  Forall
    (fun ledger => forall m, In m ledger -> exists t, text m = JString t)
    (history st)
  /\ forall m, In m (messages st) -> exists t, text m = JString t.
Proof.
  destruct (run_session actions initial_session)
    as (_ & _ & _ & _ & [h Hh] & _ & H).
  assert (Hs : forall ledger, forallb is_string ledger = true ->
                 forall m, In m ledger -> exists t, text m = JString t).
  { intros ledger Hl m Hin. rewrite forallb_forall in Hl.
    specialize (Hl m Hin). unfold is_string in Hl.
    destruct (text m) as [| | | |t| |]; try discriminate Hl. now exists t. }
  cbv zeta. split.
  - eapply Forall_impl; [|exact H]. exact Hs.
  - apply Hs. rewrite Hh in H. apply Forall_app in H as [_ H].
    now inversion H.
Qed.

End SessionInvariants.

(** ** The size of normalized text *)

Section NormalizerSize.

Lemma replace_length (a b : N) (rep s : jsstring) :
  List.length rep <= 2 ->
  List.length (replace a b rep s) <= List.length s.
Proof.
  intros Hr.
  assert (H : forall s,
             List.length (replace a b rep s) <= List.length s
             /\ forall c, List.length (replace a b rep (c :: s))
                          <= S (List.length s)).
  { clear s. induction s as [|d s [IH1 IH2]].
    - simpl. split; [lia|intros c; simpl; lia].
    - split; [apply IH2|]. intros c. cbn [replace].
      destruct (N.eqb c a && N.eqb d b).
      + rewrite length_app. simpl. lia.
      + simpl. specialize (IH2 d). simpl in IH2. lia. }
  apply H.
Qed.

Lemma trimStart_length (s : jsstring) :
  List.length (trimStart s) <= List.length s.
Proof.
  induction s as [|c s IH]; simpl; [lia|].
  destruct (isWhiteSpace c); simpl; lia.
Qed.

Lemma trim_length (s : jsstring) : List.length (trim s) <= List.length s.
Proof.
  unfold trim, trimEnd. rewrite length_rev.
  pose proof (trimStart_length (rev (trimStart s))) as H1.
  pose proof (trimStart_length s) as H2.
  rewrite length_rev in H1. lia.
Qed.

Lemma slice_length (s : jsstring) (start : Z) (end_ : option Z) :
  List.length (slice s start end_) <= List.length s.
Proof.
  unfold slice. rewrite length_firstn, length_skipn. lia.
Qed.

Lemma strip_quotes_length (s : jsstring) :
  List.length (strip_quotes s) <= List.length s.
Proof.
  unfold strip_quotes.
  destruct (startsWith [QUOTE] s && endsWith [QUOTE] s); [|lia].
  apply slice_length.
Qed.

(** X12. The normalizer never makes a text longer: trimming, removing the
    wrapping quotes and each of the ten replacements only remove code units
    or put one in the place of two. *)
Theorem cleanMarkdownText_length (text : jsstring) :
  List.length (cleanMarkdownText (Some text)) <= List.length text.
Proof.
  destruct text as [|c s]; [simpl; lia|].
  unfold cleanMarkdownText, collapse_backslashes, unescape_specific.
  pose proof (trim_length (c :: s)) as H1.
  pose proof (strip_quotes_length (trim (c :: s))) as H2.
  repeat (etransitivity; [apply replace_length; simpl; lia|]).
  lia.
Qed.

End NormalizerSize.

(** ** The request body *)

Section BodyFacts.

Lemma hexval_hexdigit (d : N) : (d < 16)%N -> hexval (hexdigit d) = Some d.
Proof.
  intros H.
  assert (E : In d [0;1;2;3;4;5;6;7;8;9;10;11;12;13;14;15]%N).
  { simpl. lia. }
  simpl in E. repeat (destruct E as [<-|E]; [vm_compute; reflexivity|]).
  contradiction.
Qed.

Lemma hex4_UnicodeEscape (c : N) :
  (c < 65536)%N ->
  hex4 (hexdigit (c / 4096)) (hexdigit ((c / 256) mod 16))
       (hexdigit ((c / 16) mod 16)) (hexdigit (c mod 16)) = Some c.
Proof.
  intros H. unfold hex4.
  rewrite !hexval_hexdigit;
    try (apply N.mod_lt; discriminate);
    try (apply N.Div0.div_lt_upper_bound; lia).
  f_equal. 
  pose proof (N.div_mod c 16 ltac:(discriminate)).
  pose proof (N.div_mod (c / 16) 16 ltac:(discriminate)).
  pose proof (N.div_mod (c / 256) 16 ltac:(discriminate)).
  assert (c / 16 / 16 = c / 256)%N by (rewrite N.Div0.div_div; reflexivity).
  assert (c / 256 / 16 = c / 4096)%N by (rewrite N.Div0.div_div; reflexivity).
  assert ((c / 16) mod 16 = (c / 16) mod 16)%N by reflexivity.
  lia.
Qed.

Lemma parse_chars_escape (c : N) (X str rest : jsstring) :
  (c < 65536)%N ->
  parse_chars X = Some (str, rest) ->
  parse_chars (UnicodeEscape c ++ X) = Some (c :: str, rest).
Proof.
  intros Hc HX. unfold UnicodeEscape. cbn [app parse_chars].
  change (BACKSLASH =? 34)%N with false. change (BACKSLASH =? 92)%N with true.
  change (117 =? 117)%N with true. cbv iota.
  rewrite hex4_UnicodeEscape by exact Hc. now rewrite HX.
Qed.

Lemma parse_chars_plain (c : N) (X str rest : jsstring) :
  c <> 34%N -> c <> 92%N -> (32 <= c)%N ->
  parse_chars X = Some (str, rest) ->
  parse_chars (c :: X) = Some (c :: str, rest).
Proof.
  intros H1 H2 H3 HX. cbn [parse_chars].
  destruct (N.eqb_spec c 34); [contradiction|].
  destruct (N.eqb_spec c 92); [contradiction|].
  destruct (N.ltb_spec c 32); [lia|]. now rewrite HX.
Qed.

Lemma parse_chars_quote_unit (c : N) (X str rest : jsstring) :
  parse_chars X = Some (str, rest) ->
  parse_chars (quote_unit c ++ X) = Some (c :: str, rest).
Proof.
  intros HX. unfold quote_unit.
  repeat match goal with
         | |- context [if (c =? ?k)%N then _ else _] =>
             destruct (N.eqb_spec c k);
             [subst c; cbn; rewrite HX; reflexivity|]
         end.
  destruct (N.ltb_spec c 32).
  - apply parse_chars_escape; [lia|exact HX].
  - now apply parse_chars_plain.
Qed.

Lemma surrogate_range (c : N) :
  isLeadingSurrogate c = true \/ isTrailingSurrogate c = true ->
  (55296 <= c < 57344)%N.
Proof.
  unfold isLeadingSurrogate, isTrailingSurrogate.
  intros [H|H]; apply andb_true_iff in H as [H1 H2];
    apply N.leb_le in H1, H2; lia.
Qed.

(** What [QuoteJSONString] writes, [JSON.parse] reads back. *)
Lemma parse_chars_quote_units (s rest : jsstring) :
  parse_chars (quote_units s ++ QUOTE :: rest) = Some (s, rest).
Proof.
  revert rest.
  assert (H : (forall rest, parse_chars (quote_units s ++ QUOTE :: rest)
                            = Some (s, rest))
              /\ forall c rest,
                   parse_chars (quote_units (c :: s) ++ QUOTE :: rest)
                   = Some (c :: s, rest)).
  { induction s as [|d s [IH1 IH2]].
    - split; [reflexivity|]. intros c rest. cbn [quote_units].
      destruct (isLeadingSurrogate c) eqn:El.
      + apply parse_chars_escape; [|reflexivity].
        pose proof (@surrogate_range c (or_introl El)). lia.
      + destruct (isTrailingSurrogate c) eqn:Et.
        * rewrite app_nil_r. apply parse_chars_escape; [|reflexivity].
          pose proof (@surrogate_range c (or_intror Et)). lia.
        * rewrite app_nil_r. now apply parse_chars_quote_unit.
    - split; [apply IH2|]. intros c rest.
      change (quote_units (c :: d :: s))
        with (if isLeadingSurrogate c then
                if isTrailingSurrogate d then c :: d :: quote_units s
                else UnicodeEscape c ++ quote_units (d :: s)
              else if isTrailingSurrogate c
                   then UnicodeEscape c ++ quote_units (d :: s)
                   else quote_unit c ++ quote_units (d :: s)).
      destruct (isLeadingSurrogate c) eqn:El.
      + pose proof (@surrogate_range c (or_introl El)).
        destruct (isTrailingSurrogate d) eqn:Et.
        * pose proof (@surrogate_range d (or_intror Et)).
          cbn [app]. apply parse_chars_plain; try lia.
          apply parse_chars_plain; try lia. apply IH1.
        * rewrite <- app_assoc. apply parse_chars_escape; [lia|apply IH2].
      + destruct (isTrailingSurrogate c) eqn:Et.
        * pose proof (@surrogate_range c (or_intror Et)).
          rewrite <- app_assoc. apply parse_chars_escape; [lia|apply IH2].
        * rewrite <- app_assoc. apply parse_chars_quote_unit. apply IH2. }
  apply H.
Qed.

Lemma body_shape (q u : jsstring) (b : bool) :
  body {| url := u; query := q; max_sources := 3; stream := b |}
  = dq "{'query':'" ++ quote_units q ++ QUOTE :: body_tail b.
Proof.
  unfold body, QuoteJSONString, body_tail. cbn [query max_sources stream].
  generalize (quote_units q) as X. intros X.
  change (quote_units (lit "query")) with (lit "query").
  change (quote_units (lit "max_sources")) with (lit "max_sources").
  change (quote_units (lit "stream")) with (lit "stream").
  change (decimal (Z.abs_N 3)) with (lit "3").
  change (3 <? 0)%Z with false. cbv iota.
  change (dq "{'query':'") with (lit "{" ++ QUOTE :: lit "query" ++ [QUOTE] ++ lit ":" ++ [QUOTE]).
  change (dq ",'max_sources':3,'stream':")
    with (lit "," ++ QUOTE :: lit "max_sources" ++ [QUOTE] ++ lit ":" ++ lit "3" ++ lit "," ++ QUOTE :: lit "stream" ++ [QUOTE] ++ lit ":").
  cbn [app]. repeat (rewrite <- app_assoc; cbn [app]). reflexivity.
Qed.

Lemma parse_body_text (Y v : jsstring) (b : bool) :
  parse_chars Y = Some (v, body_tail b) ->
  parse_value 5 (dq "{'query':'" ++ Y)
  = Some (JObject [(lit "query", JString v);
                   (lit "max_sources", JNumber (lit "3"));
                   (lit "stream", JBool b)], []).
Proof.
  intros H.
  change (dq "{'query':'") with [123; 34; 113; 117; 101; 114; 121; 34; 58; 34]%N.
  cbn [app]. 
  cbn [parse_value parse_members skip_ws isJSONSpace parse_chars cons_fst N.eqb Pos.eqb orb andb N.ltb N.compare Pos.compare Pos.compare_cont simple_escape].
  rewrite H. destruct b; vm_compute; reflexivity.
Qed.

Lemma body_parses (q : jsstring) (u : jsstring) (b : bool) :
  JSON.parse (body {| url := u; query := q; max_sources := 3; stream := b |})
  = Some (JObject [(lit "query", JString q);
                   (lit "max_sources", JNumber (lit "3"));
                   (lit "stream", JBool b)]).
Proof.
  apply parse_fuel_independent. exists 5, [].
  split; [|reflexivity].
  rewrite body_shape. apply parse_body_text. apply parse_chars_quote_units.
Qed.

(** X13. For every query, whatever code units it holds (quotes, backslashes,
    control characters, surrogates alone or in pairs), the body that
    [sendMessage] and [streamMessage] send for the component is JSON text
    that parses back to an object with the query exactly as given,
    [max_sources] 3 and the [stream] flag of the method. *)
Theorem request_body_round_trip (query : jsstring) :
  JSON.parse (body (sendMessage_request query 3))
  = Some (JObject [(lit "query", JString query);
                   (lit "max_sources", JNumber (lit "3"));
                   (lit "stream", JBool false)])
  /\ JSON.parse (body (streamMessage_request query 3))
     = Some (JObject [(lit "query", JString query);
                      (lit "max_sources", JNumber (lit "3"));
                      (lit "stream", JBool true)]).
Proof. split; apply body_parses. Qed.

End BodyFacts.

Example body_ex1 :
  body (streamMessage_request (dq "say 'hi'\" ++ [LF; 55357; 56832; 56832]%N) 3)
  = dq "{'query':'say \'hi\'\\\n" ++ [55357; 56832]%N
    ++ dq "\ude00','max_sources':3,'stream':true}".
Proof. vm_compute. reflexivity. Qed.

(** ** Frames the dispatcher does not know, and tokens without content *)

Section FrameFacts.

Variable Number_toString : jsstring -> jsstring.

(** X14. A frame whose JSON is [null], or whose [type] is missing, is not a
    string, or is a string other than [token], [sources], [error] and
    [done], invokes no callback: the state is left as it is. *)
Theorem unknown_frame_is_ignored (S : Type) (cb : Callbacks S) (st : S)
  (line : jsstring) (data : value) :
  JSON.parse (slice line 6 None) = Some data ->
  (forall ty, JSON.get data (lit "type") = Some (JString ty) ->
     ty <> lit "token" /\ ty <> lit "sources" /\ ty <> lit "error"
     /\ ty <> lit "done") ->
  handle_line cb st line = st.
Proof.
  intros Hp Hty. unfold handle_line. rewrite Hp.
  destruct (startsWith _ line); [|reflexivity].
  unfold dispatch.
  destruct (JSON.get data (lit "type")) as [[| | | |ty| |]|]; try reflexivity.
  destruct (Hty ty eq_refl) as (H1 & H2 & H3 & H4).
  destruct (JS.eqb ty (lit "token")) eqn:E1;
    [apply eqb_eq in E1; contradiction|].
  destruct (JS.eqb ty (lit "sources")) eqn:E2;
    [apply eqb_eq in E2; contradiction|].
  destruct (JS.eqb ty (lit "error")) eqn:E3;
    [apply eqb_eq in E3; contradiction|].
  destruct (JS.eqb ty (lit "done")) eqn:E4;
    [apply eqb_eq in E4; contradiction|].
  reflexivity.
Qed.

(** X15. A token frame that is an object with no [content] member passes
    [undefined] to [onToken]: the nine code units of the word "undefined"
    are appended to [streamedText] and shown in every message with the bot
    message's id. *)
Theorem token_without_content (b : Z) (st : State) (streamedText line : jsstring)
  (props : list (jsstring * value)) :
  startsWith (lit "data: ") line = true ->
  JSON.parse (slice line 6 None) = Some (JObject props) ->
  JSON.lookup (lit "type") props = JString (lit "token") ->
  JSON.lookup (lit "content") props = JUndefined ->
  handle_line (callbacks Number_toString b) (st, streamedText) line
  = (setMessages
       (patch b (with_text (JString (streamedText ++ lit "undefined")))) st,
     streamedText ++ lit "undefined").
Proof.
  intros Hs Hp Ht Hc. unfold handle_line. rewrite Hs, Hp.
  unfold dispatch. cbn [JSON.get]. rewrite Ht, Hc. reflexivity.
Qed.

End FrameFacts.

Lemma unknown_frame_is_ignored_witness :
  decode [dq "data: {'type':'ping','content':'x'}"] = [].
Proof.
  refine (@unknown_frame_is_ignored _ recorder []
            (dq "data: {'type':'ping','content':'x'}")
            (JObject [(lit "type", JString (lit "ping"));
                      (lit "content", JString (lit "x"))]) _ _).
  - vm_compute. reflexivity.
  - intros ty H. vm_compute in H. injection H as <-.
    repeat split; vm_compute; discriminate.
Defined.

Lemma token_without_content_witness :
  snd (handle_line (callbacks lexeme_text 8) (streaming_state, lit "The latest")
         (dq "data: {'type':'token'}"))
  = lit "The latestundefined".
Proof.
  rewrite (@token_without_content lexeme_text 8 streaming_state
             (lit "The latest") (dq "data: {'type':'token'}")
             [(lit "type", JString (lit "token"))]);
    vm_compute; reflexivity.
Defined.

(** ** When React runs the updaters *)

Section RenderingFacts.

Variable Number_toString : jsstring -> jsstring.

(** The ledger after the events, each update applied as it is issued. *)
Fixpoint apply_events (b : Z) (acc : jsstring) (evs : list ProtocolEvent)
  (l : list Message) : list Message :=
  match evs with
  | [] => l
  | e :: evs =>
      if converts Number_toString e
      then apply_events b (event_text Number_toString acc e) evs
             (patch b (event_patch Number_toString acc e) l)
      else apply_events b acc evs l
  end.

Lemma replay_messages (b : Z) (evs : list ProtocolEvent) (st : State)
  (acc : jsstring) :
  messages (fst (fold_left (invoke (callbacks Number_toString b)) evs (st, acc)))
  = apply_events b acc evs (messages st).
Proof.
  revert st acc. induction evs as [|e evs IH]; intros st acc; [reflexivity|].
  cbn [fold_left apply_events].
  destruct (converts Number_toString e) eqn:C.
  - rewrite (@invoke_callbacks Number_toString b st acc e C). now rewrite IH.
  - rewrite (@invoke_throws Number_toString b st acc e C). apply IH.
Qed.

Lemma apply_events_snoc (b : Z) (evs : list ProtocolEvent) (e : ProtocolEvent)
  (acc : jsstring) (l : list Message) :
  apply_events b acc (evs ++ [e]) l
  = if converts Number_toString e
    then patch b (event_patch Number_toString
                    (acc ++ token_text Number_toString evs) e)
           (apply_events b acc evs l)
    else apply_events b acc evs l.
Proof.
  revert acc l. induction evs as [|e0 evs IH]; intros acc l.
  - cbn [app apply_events]. unfold token_text. simpl. now rewrite app_nil_r.
  - cbn [app apply_events].
    assert (Ht : forall a, a ++ token_text Number_toString (e0 :: evs)
                           = event_text Number_toString a e0
                             ++ token_text Number_toString evs).
    { intros a. unfold token_text. cbn [map List.concat].
      now rewrite (@event_text_app Number_toString a e0), app_assoc. }
    destruct (converts Number_toString e0) eqn:C0.
    + rewrite IH, Ht. reflexivity.
    + rewrite IH, Ht, (@event_text_throws Number_toString acc e0 C0).
      reflexivity.
Qed.

(** The updaters queued by the callbacks of a batch. *)
Definition updaters (evs : list ProtocolEvent) : list Updater :=
  map event_updater (filter (converts Number_toString) evs).

Lemma calls_queue (evs : list ProtocolEvent) (p : Pending) :
  fold_left (fun p e => call Number_toString e p) evs p
  = {| rendered := rendered p;
       streamed := streamed p ++ token_text Number_toString evs;
       queued := queued p ++ updaters evs |}.
Proof.
  revert p. induction evs as [|e evs IH]; intros p.
  - unfold token_text, updaters. simpl. rewrite !app_nil_r. now destruct p.
  - cbn [fold_left]. rewrite IH. unfold call, updaters, token_text.
    cbn [filter map List.concat].
    destruct (converts Number_toString e) eqn:C; cbn [rendered streamed queued map].
    + rewrite (@event_text_app Number_toString (streamed p) e).
      now rewrite <- !app_assoc.
    + pose proof (@event_text_throws Number_toString [] e C) as H.
      rewrite H. reflexivity.
Qed.

Lemma patch_patch (b : Z) (f g : Message -> Message) (l : list Message) :
  (forall m, id (g m) = id m) ->
  patch b f (patch b g l) = patch b (fun m => f (g m)) l.
Proof.
  intros Hg. unfold patch. rewrite map_map. apply map_ext. intros m.
  destruct (Z.eqb (id m) b) eqn:E; [|now rewrite E].
  now rewrite Hg, E.
Qed.

(** What an updater does apart from the text. *)
Definition besides_text (u : Updater) : Message -> Message :=
  match u with
  | ShowStreamedText => fun m => m
  | SetSources srcs => with_sources srcs
  | ShowFailure | Close => with_isStreaming false
  end.

(** An updater that sets the text hides what the variable held when the
    updaters before it ran. *)
Lemma run_updater_overwritten (b : Z) (x c : jsstring) (u : Updater)
  (l : list Message) :
  patch b (with_text (JString x)) (run_updater b c u l)
  = patch b (besides_text u) (patch b (with_text (JString x)) l).
Proof.
  unfold run_updater. rewrite !patch_patch.
  - unfold patch. apply map_ext. intros m.
    destruct (Z.eqb (id m) b); [|reflexivity]. now destruct u.
  - reflexivity.
  - now destruct u.
Qed.

Lemma queue_overwritten (b : Z) (x c1 c2 : jsstring) (us : list Updater)
  (l1 l2 : list Message) :
  patch b (with_text (JString x)) l1 = patch b (with_text (JString x)) l2 ->
  patch b (with_text (JString x))
    (fold_left (fun prev u => run_updater b c1 u prev) us l1)
  = patch b (with_text (JString x))
      (fold_left (fun prev u => run_updater b c2 u prev) us l2).
Proof.
  revert l1 l2. induction us as [|u us IH]; intros l1 l2 H; [exact H|].
  cbn [fold_left]. apply IH. rewrite !run_updater_overwritten. now rewrite H.
Qed.

(** Run in one batch, the updaters of a sequence of events give the ledger
    they give when each is applied as it is issued. *)
Lemma batch_agrees (b : Z) (evs : list ProtocolEvent) (acc : jsstring)
  (l : list Message) :
  fold_left
    (fun prev u => run_updater b (acc ++ token_text Number_toString evs) u prev)
    (updaters evs) l
  = apply_events b acc evs l.
Proof.
  induction evs as [|e evs IH] using rev_ind; [reflexivity|].
  rewrite apply_events_snoc. unfold updaters in *.
  rewrite filter_app, map_app, fold_left_app. cbn [filter].
  assert (Ht : token_text Number_toString (evs ++ [e])
               = token_text Number_toString evs
                 ++ event_text Number_toString [] e).
  { unfold token_text. rewrite map_app, concat_app. simpl.
    now rewrite app_nil_r. }
  rewrite Ht.
  destruct (converts Number_toString e) eqn:C.
  - cbn [map fold_left]. rewrite <- IH.
    destruct e as [token| | |].
    + unfold run_updater at 1. cbn [event_updater event_patch].
      rewrite (@event_text_app Number_toString
                 (acc ++ token_text Number_toString evs) (Token token)).
      rewrite <- app_assoc.
      apply queue_overwritten. reflexivity.
    + cbn [event_text]. rewrite !app_nil_r. reflexivity.
    + cbn [event_text]. rewrite !app_nil_r. reflexivity.
    + cbn [event_text]. rewrite !app_nil_r. reflexivity.
  - cbn [map fold_left].
    rewrite (@event_text_throws Number_toString [] e C), app_nil_r.
    exact IH.
Qed.

Lemma render_batch (b : Z) (evs : list ProtocolEvent) (st : State)
  (acc : jsstring) :
  let r := fold_left (invoke (callbacks Number_toString b)) evs (st, acc) in
  render b (fold_left (fun p e => call Number_toString e p) evs
              {| rendered := messages st; streamed := acc; queued := [] |})
  = {| rendered := messages (fst r); streamed := snd r; queued := [] |}.
Proof.
  cbv zeta. rewrite calls_queue. unfold render.
  cbn [rendered streamed queued app].
  rewrite batch_agrees, replay_messages.
  now rewrite (@replay_streamedText Number_toString b evs st acc).
Qed.

Lemma render_batches_agree (b : Z) (schedule : list (list ProtocolEvent))
  (st : State) (acc : jsstring) :
  let r := fold_left (invoke (callbacks Number_toString b))
             (List.concat schedule) (st, acc) in
  render_batches Number_toString b schedule
    {| rendered := messages st; streamed := acc; queued := [] |}
  = {| rendered := messages (fst r); streamed := snd r; queued := [] |}.
Proof.
  revert st acc. induction schedule as [|batch schedule IH]; intros st acc;
    [reflexivity|].
  cbv zeta. unfold render_batches in *. cbn [fold_left List.concat].
  rewrite render_batch, fold_left_app.
  destruct (fold_left (invoke (callbacks Number_toString b)) batch (st, acc))
    as [st1 acc1].
  apply IH.
Qed.

(** The history keeps what it held and ends with the ledger, if the ledger
    has changed. *)
Lemma replay_history (b : Z) (evs : list ProtocolEvent) (st : State)
  (acc : jsstring) :
  let st' := fst (fold_left (invoke (callbacks Number_toString b)) evs (st, acc)) in
  exists h, history st' = history st ++ h
            /\ In (messages st') (messages st :: h).
Proof.
  revert st acc. induction evs as [|e evs IH]; intros st acc.
  - exists []. rewrite app_nil_r. split; [reflexivity|now left].
  - cbn [fold_left].
    destruct (converts Number_toString e) eqn:C.
    + rewrite (@invoke_callbacks Number_toString b st acc e C).
      destruct (IH (setMessages (patch b (event_patch Number_toString acc e)) st)
                  (event_text Number_toString acc e)) as (h & Hh & Hin).
      exists (patch b (event_patch Number_toString acc e) (messages st) :: h).
      split.
      * etransitivity; [exact Hh|]. simpl. now rewrite <- app_assoc.
      * right. exact Hin.
    + rewrite (@invoke_throws Number_toString b st acc e C). apply IH.
Qed.

(** X16. Whenever React renders while a stream runs, between whichever
    callback invocations, the ledger it shows is the one [callbacks]
    computes, though the token updater reads [streamedText] when it runs and
    not when it is queued: after the last batch the rendered ledger and the
    variable are those of the callbacks applied one by one, and the ledger
    rendered after any earlier batch is the one before the stream or one of
    the history. *)
Theorem rendering_agrees (b : Z) (st : State) (acc : jsstring)
  (shown later : list (list ProtocolEvent)) :
  let p0 := {| rendered := messages st; streamed := acc; queued := [] |} in
  let r := fold_left (invoke (callbacks Number_toString b))
             (List.concat (shown ++ later)) (st, acc) in
  rendered (render_batches Number_toString b (shown ++ later) p0)
  = messages (fst r)
  /\ streamed (render_batches Number_toString b (shown ++ later) p0) = snd r
  /\ queued (render_batches Number_toString b (shown ++ later) p0) = []
  /\ In (rendered (render_batches Number_toString b shown p0))
       (messages st :: history (fst r)).
Proof.
  cbv zeta. rewrite !render_batches_agree. cbn [rendered streamed queued].
  split; [reflexivity|]. split; [reflexivity|]. split; [reflexivity|].
  rewrite concat_app, fold_left_app.
  destruct (@replay_history b (List.concat shown) st acc) as (h1 & H1 & Hin).
  destruct (fold_left (invoke (callbacks Number_toString b))
              (List.concat shown) (st, acc)) as [st1 acc1].
  cbn [fst] in *.
  destruct (@replay_history b (List.concat later) st1 acc1) as (h2 & H2 & _).
  rewrite H2, H1.
  destruct Hin as [<-|Hin]; [now left|]. right.
  apply in_or_app. left. apply in_or_app. now right.
Qed.

End RenderingFacts.

(** One batch holding a token, the done frame and a second token: when React
    runs the three updaters the variable holds both tokens, and the message
    is closed with the whole text at once. *)
Example rendering_ex1 :
  rendered (render 8
              (fold_left (fun p e => call lexeme_text e p)
                 [Token (JString (lit "Hi")); Done; Token (JString (lit "!"))]
                 {| rendered := messages streaming_state; streamed := [];
                    queued := [] |}))
  = [ {| id := 7; text := JString (lit "latest AI news"); sender := user;
         sources := None; isStreaming := None |};
      {| id := 8; text := JString (lit "Hi!"); sender := bot;
         sources := Some (JArray []); isStreaming := Some false |} ].
Proof. vm_compute. reflexivity. Qed.
